(** * Checkmate: the board timeline and the game review engine

    A shallow embedding of [src/lib/chess/board.ts] (the [BoardTimeline]
    state machine), [src/lib/chess/stockfish.ts] (the evaluation records and
    [evalAsAbsoluteScore]) and [src/lib/chess/game_review.ts]
    ([TimelineAnnotations] and [GameReviewer]).

    JavaScript numbers that hold array indices are natural numbers here;
    where the source subtracts from a length the comparison is carried out in
    [Z], so that [length - 1] on an empty array is [-1] as in the source.
    Centipawn scores are integers ([Z]); the two quotients of
    [TimelineAnnotations] and the progress value are exact rationals ([Q]),
    with [None] standing for [NaN] (the quotient [0 / 0]). *)

From Stdlib Require Import ZArith QArith String Ascii List Bool Lia DecimalString.
From Stdlib Require Import Qround Lqa.
From stdpp Require Import base option list gmap strings.
From Equations Require Import Equations.

Close Scope Q_scope.
Open Scope string_scope.
Open Scope list_scope.
Open Scope nat_scope.

(* ===================================================================== *)
(** ** Exceptions and completions *)
(* ===================================================================== *)

(** What a JavaScript call may throw in the modelled code: an [Error] built
    by the code itself (with its message), a [TypeError] of the runtime
    (member access on [undefined]), an error thrown by chess.js, or a
    rejected [fetch]. *)
Inductive Exception : Type :=
| Error (message : string)
| TypeError
| ChessJsError
| FetchError.

(** How a call completes: it returns a value or it throws. *)
Inductive completion (A : Type) : Type :=
| Normal (a : A)
| Throw (e : Exception).
Arguments Normal {A} a.
Arguments Throw {A} e.

(* ===================================================================== *)
(** ** board.ts *)
(* ===================================================================== *)

Record TimelinePosition : Type := mkPosition {
  main : bool;
  index : nat
}.

Definition positionsEqual (a b : TimelinePosition) : bool :=
  Bool.eqb (main a) (main b) && Nat.eqb (index a) (index b).

Definition INITIAL_BOARD_FEN : string :=
  "rnbqkbnr/pppppppp/8/8/8/8/PPPPPPPP/RNBQKBNR w KQkq - 0 1".

(** A number between 0 and 63. *)
Definition SquareIndex : Type := nat.

Definition getCoordsFromIndex (i : SquareIndex) : nat * nat :=
  (i / 8, i mod 8).

(** Precondition of the source: the index is between 0 and 63. *)
Definition boardIndexToSquare (i : SquareIndex) : string :=
  let '(row, column) := getCoordsFromIndex i in
  String (ascii_of_nat (97 + column)) (String (ascii_of_nat (56 - row)) EmptyString).

(** chess.js colours: ["w"] and ["b"]. *)
Inductive Color : Type := White | Black.

(** The verbose move object of chess.js. *)
Record Move : Type := mkMove {
  color : Color;
  from : string;
  to : string;
  piece : string;
  captured : option string;
  promotion : option string;
  san : string;
  before : string;
  after : string
}.

Definition PGNMetadata : Type := gmap string string.

(** The part of chess.js the code calls, on a position given by its FEN.
    - [chess_load fen]: whether [new Chess(fen)] accepts the FEN (it throws
      otherwise);
    - [chess_turn fen]: [new Chess(fen).turn()];
    - [chess_moves fen]: [new Chess(fen).moves({ verbose: true })];
    - [chess_move fen from to promotion]: [new Chess(fen).move({from, to,
      promotion})], [None] when chess.js throws (illegal move);
    - [chess_loadPgn pgn]: [loadPgn(pgn)] on a fresh game followed by
      [history({ verbose: true })] and [header()], [None] when [loadPgn]
      throws. *)
Record ChessJs : Type := mkChessJs {
  chess_load : string -> bool;
  chess_turn : string -> Color;
  chess_moves : string -> list Move;
  chess_move : string -> string -> string -> option string -> option Move;
  chess_loadPgn : string -> option (list Move * PGNMetadata)
}.

(** A board state of the timeline.  The [pieces] array of the source is
    derived from the FEN by chess.js and is read by the rendering code only;
    it is not part of the embedding. *)
Record BoardState : Type := mkBoardState {
  fen : string;
  move : option Move
}.

Record MoveResult : Type := mkMoveResult {
  valid : bool;
  newPosition : TimelinePosition
}.

Record BoardTimeline : Type := mkTimeline {
  _position : TimelinePosition;
  _main : list BoardState;
  _hypothetical : list BoardState;
  _hypotheticalForksFrom : nat
}.

Section Board.
Variable chess : ChessJs.

Definition getTurn (s : BoardState) : Color := chess_turn chess (fen s).

Definition getAllLegalMoves (s : BoardState) : list Move :=
  chess_moves chess (fen s).

(** [BoardState.fromFEN]. *)
Definition fromFEN (f : string) : BoardState := mkBoardState f None.

(** [BoardState.push]: the FEN of the new state is [chess.fen()] after the
    move, which chess.js also records as the move's [after]. *)
Definition push (s : BoardState) (fromIndex toIndex : SquareIndex)
    (promo : option string) : option BoardState :=
  match chess_move chess (fen s) (boardIndexToSquare fromIndex)
          (boardIndexToSquare toIndex) promo with
  | Some m => Some (mkBoardState (after m) (Some m))
  | None => None
  end.

(** [new BoardTimeline()]. *)
Definition newBoardTimeline : BoardTimeline :=
  {| _position := mkPosition false 0;
     _main := [];
     _hypothetical := [fromFEN INITIAL_BOARD_FEN];
     _hypotheticalForksFrom := 0 |}.

(** [loadFEN]: the two first assignments are made before
    [BoardState.fromFEN] constructs [new Chess(fen)], so they persist when
    that constructor throws. *)
Definition loadFEN (f : string) (t : BoardTimeline)
    : completion unit * BoardTimeline :=
  let t1 := {| _position := mkPosition false 0;
               _main := [];
               _hypothetical := _hypothetical t;
               _hypotheticalForksFrom := _hypotheticalForksFrom t |} in
  if chess_load chess f then
    (Normal tt,
     {| _position := _position t1;
        _main := _main t1;
        _hypothetical := [fromFEN f];
        _hypotheticalForksFrom := 0 |})
  else (Throw ChessJsError, t1).

(** [loadPGN]: [chess.loadPgn] runs (and may throw) before any field is
    assigned. *)
Definition loadPGN (pgn : string) (t : BoardTimeline)
    : completion PGNMetadata * BoardTimeline :=
  match chess_loadPgn chess pgn with
  | None => (Throw ChessJsError, t)
  | Some (history, header) =>
      (Normal header,
       {| _position := mkPosition true 0;
          _main := fromFEN INITIAL_BOARD_FEN
                   :: List.map (fun m => mkBoardState (after m) (Some m)) history;
          _hypothetical := [];
          _hypotheticalForksFrom := 0 |})
  end.

Definition getPosition (t : BoardTimeline) : TimelinePosition := _position t.

(** [getBoardState]: [None] is the [undefined] of an index out of range. *)
Definition getBoardState (t : BoardTimeline) : option BoardState :=
  if main (_position t) then _main t !! index (_position t)
  else _hypothetical t !! index (_position t).

(** [makeMove]: calling [push] on [undefined] is a [TypeError]. *)
Definition makeMove (fromIndex toIndex : SquareIndex) (promo : option string)
    (t : BoardTimeline) : completion MoveResult * BoardTimeline :=
  match getBoardState t with
  | None => (Throw TypeError, t)
  | Some current =>
      match push current fromIndex toIndex promo with
      | None => (Normal (mkMoveResult false (getPosition t)), t)
      | Some nextState =>
          if main (_position t) then
            let t' := {| _position := mkPosition false 0;
                         _main := _main t;
                         _hypothetical := [nextState];
                         _hypotheticalForksFrom := index (_position t) |} in
            (Normal (mkMoveResult true (getPosition t')), t')
          else
            let i := index (_position t) in
            let hyp :=
              if (Z.of_nat i =? Z.of_nat (length (_hypothetical t)) - 1)%Z
              then _hypothetical t ++ [nextState]
              else take (i + 1) (_hypothetical t) ++ [nextState] in
            let t' := {| _position := mkPosition (main (_position t)) (i + 1);
                         _main := _main t;
                         _hypothetical := hyp;
                         _hypotheticalForksFrom := _hypotheticalForksFrom t |} in
            (Normal (mkMoveResult true (getPosition t')), t')
      end
  end.

(** The state change of [previous]. *)
Definition previous_state (t : BoardTimeline) : BoardTimeline :=
  let p := _position t in
  if main p then
    if 0 <? index p then
      {| _position := mkPosition (main p) (index p - 1);
         _main := _main t;
         _hypothetical := _hypothetical t;
         _hypotheticalForksFrom := _hypotheticalForksFrom t |}
    else t
  else
    if 0 <? index p then
      {| _position := mkPosition (main p) (index p - 1);
         _main := _main t;
         _hypothetical := _hypothetical t;
         _hypotheticalForksFrom := _hypotheticalForksFrom t |}
    else if 0 <? length (_main t) then
      {| _position := mkPosition true (_hypotheticalForksFrom t);
         _main := _main t;
         _hypothetical := [];
         _hypotheticalForksFrom := _hypotheticalForksFrom t |}
    else t.

(** [previous]: the returned position is [getPosition] of the new state. *)
Definition previous (t : BoardTimeline) : TimelinePosition * BoardTimeline :=
  let t' := previous_state t in (getPosition t', t').

Definition next_state (t : BoardTimeline) : BoardTimeline :=
  let p := _position t in
  if main p then
    if (Z.of_nat (index p) <? Z.of_nat (length (_main t)) - 1)%Z then
      {| _position := mkPosition (main p) (index p + 1);
         _main := _main t;
         _hypothetical := _hypothetical t;
         _hypotheticalForksFrom := _hypotheticalForksFrom t |}
    else t
  else
    if (Z.of_nat (index p) <? Z.of_nat (length (_hypothetical t)) - 1)%Z then
      {| _position := mkPosition (main p) (index p + 1);
         _main := _main t;
         _hypothetical := _hypothetical t;
         _hypotheticalForksFrom := _hypotheticalForksFrom t |}
    else t.

Definition next (t : BoardTimeline) : TimelinePosition * BoardTimeline :=
  let t' := next_state t in (getPosition t', t').

(** The [while (1)] loops of [jumpToStart] and [jumpToEnd].  [last] is
    always the position read just before the call of [previous] (or
    [next]); the loop is left when the call did not move the position.
    Each loop is defined by well-founded recursion on a measure that a
    position-changing step decreases. *)
Definition back_measure (t : BoardTimeline) : nat :=
  if main (_position t) then index (_position t)
  else S (index (_position t) + _hypotheticalForksFrom t).

Definition forward_measure (t : BoardTimeline) : nat :=
  if main (_position t) then length (_main t) - index (_position t)
  else length (_hypothetical t) - index (_position t).

Definition inspect {A : Type} (a : A) : {b : A | a = b} := exist _ a eq_refl.

Equations? jumpToStart_loop (t : BoardTimeline) : BoardTimeline
    by wf (back_measure t) lt :=
  jumpToStart_loop t
    with inspect (positionsEqual (getPosition t) (getPosition (snd (previous t)))) := {
    | exist _ true _ => snd (previous t)
    | exist _ false _ => jumpToStart_loop (snd (previous t)) }.
Proof.
  clear jumpToStart_loop.
  unfold previous, previous_state, positionsEqual, getPosition, back_measure in *.
  destruct t as [[m i] mn hy fk]; simpl in *.
  destruct m; simpl in *.
  - destruct (0 <? i) eqn:Hi; simpl in *.
    + apply Nat.ltb_lt in Hi. lia.
    + rewrite Nat.eqb_refl in e. discriminate.
  - destruct (0 <? i) eqn:Hi; simpl in *.
    + apply Nat.ltb_lt in Hi. lia.
    + destruct (0 <? length mn); simpl in *.
      * apply Nat.ltb_ge in Hi. lia.
      * rewrite Nat.eqb_refl in e. discriminate.
Qed.

Definition jumpToStart (t : BoardTimeline) : TimelinePosition * BoardTimeline :=
  let t' := jumpToStart_loop t in (getPosition t', t').

Equations? jumpToEnd_loop (t : BoardTimeline) : BoardTimeline
    by wf (forward_measure t) lt :=
  jumpToEnd_loop t
    with inspect (positionsEqual (getPosition t) (getPosition (snd (next t)))) := {
    | exist _ true _ => snd (next t)
    | exist _ false _ => jumpToEnd_loop (snd (next t)) }.
Proof.
  clear jumpToEnd_loop.
  unfold next, next_state, positionsEqual, getPosition, forward_measure in *.
  destruct t as [[m i] mn hy fk]; simpl in *.
  destruct m; simpl in *.
  - destruct (Z.of_nat i <? Z.of_nat (length mn) - 1)%Z eqn:Hi; simpl in *.
    + apply Z.ltb_lt in Hi. lia.
    + rewrite Nat.eqb_refl in e. discriminate.
  - destruct (Z.of_nat i <? Z.of_nat (length hy) - 1)%Z eqn:Hi; simpl in *.
    + apply Z.ltb_lt in Hi. lia.
    + rewrite Nat.eqb_refl in e. discriminate.
Qed.

Definition jumpToEnd (t : BoardTimeline) : TimelinePosition * BoardTimeline :=
  let t' := jumpToEnd_loop t in (getPosition t', t').

End Board.

(* ===================================================================== *)
(** ** stockfish.ts *)
(* ===================================================================== *)

Inductive EvaluationScore : Type :=
| CentipawnAdvantage (n : Z)
| Mate (n : Z).

Record Continuation : Type := mkContinuation {
  continuation : list string;
  score : EvaluationScore
}.

Inductive Outcome : Type := WhiteWin | BlackWin | Draw.

Record StockfishEval : Type := mkEval {
  eval_depth : nat;
  n_nodes : nat;
  continuations : list Continuation;
  outcome : option Outcome
}.

(** The evaluation capability as [GameReviewer] consumes it:
    [getEvaluationToDepth fen depth] resolves with an evaluation or rejects
    ([None]).  The polling of the engine process behind it is outside the
    embedding; the answer is taken to depend on the position only. *)
Record Stockfish : Type := mkStockfish {
  getEvaluationToDepth : string -> nat -> option StockfishEval
}.

Definition outcomeScores (o : Outcome) : Z :=
  match o with
  | Draw => 0
  | WhiteWin => 1000
  | BlackWin => -1000
  end%Z.

(** ["Mate" in score]. *)
Definition hasMate (s : EvaluationScore) : bool :=
  match s with Mate _ => true | CentipawnAdvantage _ => false end.

Definition evalAsAbsoluteScore (sfEval : StockfishEval) : completion Z :=
  match outcome sfEval with
  | Some o => Normal (outcomeScores o)
  | None =>
      match continuations sfEval !! 0 with
      | None => Throw (Error "No continuation found.")
      | Some c =>
          match score c with
          | Mate n => Normal (if (n <? 0)%Z then -1000 else 1000)%Z
          | CentipawnAdvantage n => Normal n
          end
      end
  end.

(** [getBestMove]: [None] is the [null] (or [undefined]) of the source. *)
Definition getBestMove (sfEval : StockfishEval) : option string :=
  match continuations sfEval !! 0 with
  | None => None
  | Some c => continuation c !! 0
  end.

(* ===================================================================== *)
(** ** game_review.ts *)
(* ===================================================================== *)

Inductive MoveFeedback : Type :=
| Book | Brilliant | Best | Miss | Good | Dubious | Blunder.

Definition GOOD_CP_LOSS_THRESHOLD : Z := 50.
Definition BLUNDER_CP_LOSS_THRESHOLD : Z := 200.

Definition isPositiveFeedback (f : MoveFeedback) : bool :=
  match f with
  | Book | Brilliant | Best | Good => true
  | _ => false
  end.

Record Annotation : Type := mkAnnotation {
  feedback : MoveFeedback;
  description : string;
  evaluation : StockfishEval;
  deltaScore : Z;
  bestMove : option string
}.

(** [TimelineAnnotations]: the private array [_annotations]. *)
Record TimelineAnnotations : Type := mkAnnotations {
  _annotations : list (option Annotation)
}.

Definition newTimelineAnnotations (timeline : list BoardState) : TimelineAnnotations :=
  mkAnnotations (replicate (length timeline) None).

Definition annotations_length (a : TimelineAnnotations) : nat :=
  length (_annotations a).

(** The quotient of two JavaScript numbers whose numerator is zero whenever
    the denominator is: [None] is [NaN]. *)
Definition quotient (n : Q) (d : nat) : option Q :=
  match d with
  | O => None
  | S _ => Some (n / inject_Z (Z.of_nat d))%Q
  end.

Definition computeAccuracy (a : TimelineAnnotations) : option Q :=
  let numGoodMoves :=
    fold_left (fun n (x : option Annotation) =>
                 match x with
                 | Some an => if isPositiveFeedback (feedback an) then n + 1 else n
                 | None => n
                 end) (_annotations a) 0 in
  quotient (inject_Z (Z.of_nat numGoodMoves)) (length (_annotations a)).

Definition computeWeightedAccuracy (a : TimelineAnnotations) : option Q :=
  let BEST_MOVE_WEIGHT := 1%Q in
  let BRILLIANT_MOVE_WEIGHT := 1%Q in
  let GOOD_MOVE_WEIGHT := (1 # 2)%Q in
  let DUBIOUS_MOVE_WEIGHT := (1 # 4)%Q in
  let weightedScore :=
    fold_left (fun (w : Q) (x : option Annotation) =>
                 match x with
                 | Some an =>
                     match feedback an with
                     | Best => w + BEST_MOVE_WEIGHT
                     | Brilliant => w + BRILLIANT_MOVE_WEIGHT
                     | Good => w + GOOD_MOVE_WEIGHT
                     | Dubious => w + DUBIOUS_MOVE_WEIGHT
                     | _ => w
                     end
                 | None => w
                 end%Q) (_annotations a) 0%Q in
  quotient weightedScore (length (_annotations a)).

Definition feedback_eqb (x y : MoveFeedback) : bool :=
  match x, y with
  | Book, Book | Brilliant, Brilliant | Best, Best | Miss, Miss
  | Good, Good | Dubious, Dubious | Blunder, Blunder => true
  | _, _ => false
  end.

Definition numMovesOfType (f : MoveFeedback) (a : TimelineAnnotations) : nat :=
  fold_left (fun n (x : option Annotation) =>
               match x with
               | Some an => if feedback_eqb (feedback an) f then n + 1 else n
               | None => n
               end) (_annotations a) 0.

(** [addAnnotation]: an assignment past the end of a JavaScript array
    extends it, leaving holes. *)
Definition addAnnotation (i : nat) (an : Annotation) (a : TimelineAnnotations)
    : TimelineAnnotations :=
  if i <? length (_annotations a)
  then mkAnnotations (<[i := Some an]> (_annotations a))
  else mkAnnotations (_annotations a ++ replicate (i - length (_annotations a)) None
                        ++ [Some an]).

Definition getAnnotationAt (i : nat) (a : TimelineAnnotations) : option Annotation :=
  match _annotations a !! i with
  | Some x => x
  | None => None
  end.

(** One element of the array built by [_getEvaluations]. *)
Record EvaluationRecord : Type := mkRecord {
  rec_eval : StockfishEval;
  rec_deltaScore : Z
}.

(** The fields of a [GameReviewer].  The field [_stockfish] is a handle on
    the one shared engine and carries no state of its own; the engine is a
    parameter of the operations below. *)
Record GameReviewer : Type := mkReviewer {
  _timelineAnnotations : TimelineAnnotations;
  _timeline : list BoardState;
  _busy : bool;
  _completed : bool;
  _progress : Q
}.

(** Methods of a [GameReviewer]: they read and write the fields and either
    return or throw.  [beginGameReview] is an [async] method: returning is
    the resolution of its promise and throwing its rejection.  While it is
    suspended no other method writes the fields (a second call is refused by
    its first guard before any write), so a run is modelled as one function
    from the state before to the completion and the state after. *)
Definition Review (A : Type) : Type := GameReviewer -> completion A * GameReviewer.

Definition ret {A : Type} (a : A) : Review A := fun r => (Normal a, r).

Definition throw {A : Type} (e : Exception) : Review A := fun r => (Throw e, r).

Definition bind {A B : Type} (m : Review A) (k : A -> Review B) : Review B :=
  fun r =>
    match m r with
    | (Normal a, r') => k a r'
    | (Throw e, r') => (Throw e, r')
    end.

Definition lift {A : Type} (c : completion A) : Review A := fun r => (c, r).

Notation "'let*' x ':=' m 'in' k" := (bind m (fun x => k))
  (at level 10, x name, m at level 100, k at level 200).

Definition set_busy (v : bool) : Review unit :=
  fun r => (Normal tt,
            {| _timelineAnnotations := _timelineAnnotations r;
               _timeline := _timeline r;
               _busy := v;
               _completed := _completed r;
               _progress := _progress r |}).

Definition set_completed (v : bool) : Review unit :=
  fun r => (Normal tt,
            {| _timelineAnnotations := _timelineAnnotations r;
               _timeline := _timeline r;
               _busy := _busy r;
               _completed := v;
               _progress := _progress r |}).

Definition set_progress (v : Q) : Review unit :=
  fun r => (Normal tt,
            {| _timelineAnnotations := _timelineAnnotations r;
               _timeline := _timeline r;
               _busy := _busy r;
               _completed := _completed r;
               _progress := v |}).

Definition add_annotation (i : nat) (an : Annotation) : Review unit :=
  fun r => (Normal tt,
            {| _timelineAnnotations := addAnnotation i an (_timelineAnnotations r);
               _timeline := _timeline r;
               _busy := _busy r;
               _completed := _completed r;
               _progress := _progress r |}).

(** [s.slice(a, b)] for [0 <= a <= b]. *)
Definition slice (a b : nat) (s : string) : string := substring a (b - a) s.

(** A JavaScript number (an integer here) converted to a string. *)
Definition number_to_string (n : Z) : string :=
  NilZero.string_of_int (Z.to_int n).

(** [new GameReviewer(timeline)]. *)
Definition newGameReviewer (timeline : list BoardState) : completion GameReviewer :=
  if length timeline =? 0 then Throw (Error "Game timeline must not be empty")
  else Normal {| _timelineAnnotations := newTimelineAnnotations timeline;
                 _timeline := timeline;
                 _busy := false;
                 _completed := false;
                 _progress := 0%Q |}.

Definition isBusy (r : GameReviewer) : bool := _busy r.
Definition isCompleted (r : GameReviewer) : bool := _completed r.
Definition getProgress (r : GameReviewer) : Q := _progress r.

Definition getAnnotations (r : GameReviewer) : option TimelineAnnotations :=
  if negb (_completed r) then None else Some (_timelineAnnotations r).

Section Reviewer.
Variable chess : ChessJs.
Variable stockfish : Stockfish.

(** The outcome of fetching and parsing [/resources/data/openings.json]:
    the opening book, or [None] when the fetch or the parse rejects.  A book
    value counts when it is a non-empty string (the source tests it for
    truthiness). *)
Variable openings : option (gmap string string).

(** The body of the [for] loop of [_getEvaluations], iterated over the
    states [timeline[i], timeline[i+1], ...] still to visit; [n] is
    [timeline.length]. *)
Fixpoint getEvaluations_loop (n i : nat) (rest : list BoardState)
    (lastState : BoardState) (lastScore : Z)
    (evaluations : list EvaluationRecord) : Review (list EvaluationRecord) :=
  match rest with
  | [] => ret evaluations
  | thisState :: rest' =>
      let* sc :=
        match getEvaluationToDepth stockfish (fen thisState) 10 with
        | Some e => ret e
        | None => throw (Error "Stockfish evaluation failed.")
        end in
      let* thisScore := lift (evalAsAbsoluteScore sc) in
      let deltaScore := (thisScore - lastScore)%Z in
      let deltaScore :=
        match chess_turn chess (fen lastState) with
        | Black => (- deltaScore)%Z
        | White => deltaScore
        end in
      let evaluations := evaluations ++ [mkRecord sc deltaScore] in
      let* _ := set_progress (inject_Z (Z.of_nat (i + 1)) / inject_Z (Z.of_nat n))%Q in
      getEvaluations_loop n (i + 1) rest' thisState thisScore evaluations
  end.

Definition _getEvaluations : Review (list EvaluationRecord) :=
  fun r =>
    match _timeline r with
    | [] => ret [] r
    | first :: _ =>
        getEvaluations_loop (length (_timeline r)) 0 (_timeline r) first 0%Z [] r
    end.

(** The opening name found for the move played, when the test
    [movePlayed && openingBook[movePlayed.after]] of the source is truthy. *)
Definition bookEntry (openingBook : gmap string string) (movePlayed : option Move)
    : option string :=
  match movePlayed with
  | None => None
  | Some m =>
      match openingBook !! after m with
      | Some name => if String.eqb name "" then None else Some name
      | None => None
      end
  end.

(** The chain of [if ... else if ...] that picks the feedback and the
    description.  [top] is [evaluations[i - 1].eval.continuations[0]];
    reading [.score] of a missing [sfEval.continuations[0]] is a
    [TypeError]. *)
Definition judge (openingBook : gmap string string) (movePlayed : option Move)
    (bestMove bestMoveSan : string) (top : Continuation) (sfEval : StockfishEval)
    (deltaScore : Z) : completion (MoveFeedback * string) :=
  match bookEntry openingBook movePlayed with
  | Some name =>
      Normal (Book, ("This move plays the <b>" ++ name ++ "</b>.")%string)
  | None =>
      if match movePlayed with
         | Some m => String.eqb (from m ++ to m)%string bestMove
         | None => false
         end
      then Normal (Best, "")
      else
        match (if hasMate (score top) then
                 match continuations sfEval !! 0 with
                 | None => Throw TypeError
                 | Some c => Normal (negb (hasMate (score c)))
                 end
               else Normal false) with
        | Throw e => Throw e
        | Normal true => Normal (Miss, "")
        | Normal false =>
            if (deltaScore >=? - GOOD_CP_LOSS_THRESHOLD)%Z then
              Normal (Good, ("A better move was <b>" ++ bestMoveSan ++ "</b>.")%string)
            else if (deltaScore >=? - BLUNDER_CP_LOSS_THRESHOLD)%Z then
              Normal (Dubious, ("The best move was <b>" ++ bestMoveSan ++ "</b>.")%string)
            else
              match continuations sfEval !! 0 with
              | None => Throw TypeError
              | Some c =>
                  let description :=
                    match score c with
                    | Mate n =>
                        if negb (hasMate (score top)) then
                          ("This move allows a mate in <b>" ++ number_to_string n
                             ++ "</b>. ")%string
                        else ""
                    | CentipawnAdvantage _ => ""
                    end in
                  Normal (Blunder,
                          (description ++ "The best move was <b>" ++ bestMoveSan
                             ++ "</b>.")%string)
              end
        end
  end.

(** The body of the annotation loop of [beginGameReview] for the index [i]:
    the annotation passed to [addAnnotation]. *)
Definition annotate (openingBook : gmap string string) (timeline : list BoardState)
    (evaluations : list EvaluationRecord) (i : nat) : completion Annotation :=
  match evaluations !! i, evaluations !! (i - 1) with
  | Some cur, Some prev =>
      let sfEval := rec_eval cur in
      let deltaScore := rec_deltaScore cur in
      let movePlayed :=
        match timeline !! i with
        | Some s => move s
        | None => None
        end in
      match continuations (rec_eval prev) !! 0 with
      | None => Throw TypeError
      | Some top =>
          match continuation top !! 0 with
          | None => Throw TypeError
          | Some bestMove =>
              let bestMoveFrom := slice 0 2 bestMove in
              let bestMoveTo := slice 2 4 bestMove in
              let bestMovePromotion := slice 4 5 bestMove in
              match timeline !! (i - 1) with
              | None => Throw TypeError
              | Some prevState =>
                  match chess_move chess (fen prevState) bestMoveFrom bestMoveTo
                          (Some bestMovePromotion) with
                  | None => Throw ChessJsError
                  | Some played =>
                      match judge openingBook movePlayed bestMove (san played) top
                              sfEval deltaScore with
                      | Throw e => Throw e
                      | Normal (fb, descr) =>
                          Normal {| feedback := fb;
                                    description := descr;
                                    evaluation := sfEval;
                                    deltaScore := deltaScore;
                                    bestMove := getBestMove sfEval |}
                      end
                  end
              end
          end
      end
  | _, _ => Throw TypeError
  end.

(** The loop [for (let i = 1; i < evaluations.length; i++)], over the
    indices still to visit. *)
Fixpoint annotate_loop (openingBook : gmap string string)
    (evaluations : list EvaluationRecord) (indices : list nat) : Review unit :=
  match indices with
  | [] => ret tt
  | i :: rest =>
      let* an := (fun r => (annotate openingBook (_timeline r) evaluations i, r)) in
      let* _ := add_annotation i an in
      annotate_loop openingBook evaluations rest
  end.

(** [beginGameReview].  [stopEvaluation] only posts a message to the engine
    and changes no field. *)
Definition beginGameReview : Review unit :=
  fun r =>
    if _busy r then (Throw (Error "Game review already in progress."), r)
    else if _completed r then (Throw (Error "Game review already completed."), r)
    else
      (let* _ := set_busy true in
       let* evaluations := _getEvaluations in
       let* openingBook :=
         match openings with
         | Some book => ret book
         | None => throw FetchError
         end in
       let* _ := annotate_loop openingBook evaluations
                   (seq 1 (length evaluations - 1)) in
       let* _ := set_busy false in
       set_completed true) r.

End Reviewer.

(* ===================================================================== *)
(** ** Concrete collaborators

    An excerpt of what chess.js answers on a handful of positions, and
    engines given by a table of evaluations, for the examples below. *)
(* ===================================================================== *)

Definition FEN_e4 : string :=
  "rnbqkbnr/pppppppp/8/8/4P3/8/PPPP1PPP/RNBQKBNR b KQkq - 0 1".
Definition FEN_d4 : string :=
  "rnbqkbnr/pppppppp/8/8/3P4/8/PPP1PPPP/RNBQKBNR b KQkq - 0 1".
Definition FEN_e4_e5 : string :=
  "rnbqkbnr/pppp1ppp/8/4p3/4P3/8/PPPP1PPP/RNBQKBNR w KQkq - 0 2".
Definition FEN_e4_c5 : string :=
  "rnbqkbnr/pp1ppppp/8/2p5/4P3/8/PPPP1PPP/RNBQKBNR w KQkq - 0 2".

(** White: Kh1, Re1, pawns g2 h2.  Black: Kg8, Ra2, pawns f7 g7 h7.  White
    to move mates with Re8; after Re7 instead, Black mates in two (Ra1+,
    Re1, Rxe1). *)
Definition FEN_backrank : string := "6k1/5ppp/8/8/8/8/r5PP/4R2K w - - 0 1".
Definition FEN_backrank_Re8 : string := "4R1k1/5ppp/8/8/8/8/r5PP/7K b - - 1 1".
Definition FEN_backrank_Re7 : string := "6k1/4Rppp/8/8/8/8/r5PP/7K b - - 1 1".

(** White: Ka1.  Black: Kc3, Ra8.  White is in check and Kb1 is the only
    legal move. *)
Definition FEN_forced : string := "r7/8/8/8/8/2k5/8/K7 w - - 0 1".
Definition FEN_forced_Kb1 : string := "r7/8/8/8/8/2k5/8/1K6 b - - 1 1".

Definition move_e4 : Move :=
  mkMove White "e2" "e4" "p" None None "e4" INITIAL_BOARD_FEN FEN_e4.
Definition move_d4 : Move :=
  mkMove White "d2" "d4" "p" None None "d4" INITIAL_BOARD_FEN FEN_d4.
Definition move_e5 : Move :=
  mkMove Black "e7" "e5" "p" None None "e5" FEN_e4 FEN_e4_e5.
Definition move_c5 : Move :=
  mkMove Black "c7" "c5" "p" None None "c5" FEN_e4 FEN_e4_c5.
Definition move_Re8 : Move :=
  mkMove White "e1" "e8" "r" None None "Re8#" FEN_backrank FEN_backrank_Re8.
Definition move_Re7 : Move :=
  mkMove White "e1" "e7" "r" None None "Re7" FEN_backrank FEN_backrank_Re7.
Definition move_Kb1 : Move :=
  mkMove White "a1" "b1" "k" None None "Kb1" FEN_forced FEN_forced_Kb1.

(** The legal moves tabulated.  The list is complete for [FEN_forced] only;
    for the other positions it holds the moves the examples play. *)
Definition excerpt_moves : list Move :=
  [move_e4; move_d4; move_e5; move_c5; move_Re8; move_Re7; move_Kb1].

Definition excerpt_fens : list string :=
  INITIAL_BOARD_FEN :: List.map after excerpt_moves.

(** The side to move is the second field of a FEN. *)
Fixpoint fen_turn (f : string) : Color :=
  match f with
  | String " " (String "b" _) => Black
  | String " " _ => White
  | String _ rest => fen_turn rest
  | EmptyString => White
  end.

(** chess.js picks the legal move with the requested squares; the requested
    promotion is compared only when the legal move is a promotion. *)
Definition excerpt_move (f sq_from sq_to : string) (promo : option string)
    : option Move :=
  List.find (fun m =>
               String.eqb (before m) f && String.eqb (from m) sq_from
               && String.eqb (to m) sq_to
               && match promotion m with
                  | None => true
                  | Some p => match promo with
                              | Some q => String.eqb p q
                              | None => false
                              end
                  end) excerpt_moves.

Definition excerpt_chess : ChessJs :=
  {| chess_load := fun f => existsb (String.eqb f) (FEN_backrank :: FEN_forced :: excerpt_fens);
     chess_turn := fen_turn;
     chess_moves := fun f => List.filter (fun m => String.eqb (before m) f) excerpt_moves;
     chess_move := excerpt_move;
     chess_loadPgn := fun pgn =>
       if String.eqb pgn "1. e4 e5" then Some ([move_e4; move_e5], ∅) else None |}.

(** An engine that answers from a table and rejects on any other position. *)
Definition table_engine (table : list (string * StockfishEval)) : Stockfish :=
  {| getEvaluationToDepth := fun f _ =>
       match List.find (fun e => String.eqb (fst e) f) table with
       | Some e => Some (snd e)
       | None => None
       end |}.

Definition line (moves : list string) (s : EvaluationScore) : StockfishEval :=
  mkEval 10 1000 [mkContinuation moves s] None.

(** The game 1. e4 e5 with the absolute evaluations 0, +20, +15; the
    engine prefers other first moves than those played. *)
Definition engine_e4_e5 : Stockfish :=
  table_engine
    [(INITIAL_BOARD_FEN, line ["d2d4"] (CentipawnAdvantage 0));
     (FEN_e4, line ["c7c5"] (CentipawnAdvantage 20));
     (FEN_e4_e5, line ["g1f3"] (CentipawnAdvantage 15))].

(** The same game with an engine that rejects on the second position. *)
Definition engine_failing : Stockfish :=
  table_engine [(INITIAL_BOARD_FEN, line ["d2d4"] (CentipawnAdvantage 0))].

Definition engine_backrank : Stockfish :=
  table_engine
    [(FEN_backrank, line ["e1e8"] (Mate 1));
     (FEN_backrank_Re7, line ["a2a1"; "e7e1"; "a1e1"] (Mate (-2)))].

Definition engine_forced : Stockfish :=
  table_engine
    [(FEN_forced, line ["a1b1"] (CentipawnAdvantage (-100)));
     (FEN_forced_Kb1, line ["a8h8"] (CentipawnAdvantage (-900)))].

(** The main line that [loadPGN] builds from 1. e4 e5. *)
Definition timeline_e4_e5 : list BoardState :=
  [fromFEN INITIAL_BOARD_FEN;
   mkBoardState FEN_e4 (Some move_e4);
   mkBoardState FEN_e4_e5 (Some move_e5)].

Definition timeline_backrank : list BoardState :=
  [fromFEN FEN_backrank; mkBoardState FEN_backrank_Re7 (Some move_Re7)].

(** Two positions loaded from their FEN, without move records. *)
Definition timeline_forced : list BoardState :=
  [fromFEN FEN_forced; fromFEN FEN_forced_Kb1].

(** A fresh reviewer for a non-empty timeline. *)
Definition freshReviewer (timeline : list BoardState) : GameReviewer :=
  {| _timelineAnnotations := newTimelineAnnotations timeline;
     _timeline := timeline;
     _busy := false;
     _completed := false;
     _progress := 0%Q |}.

(** The back-rank position with an engine that, after Re7, no longer
    reports a mate. *)
Definition engine_backrank_miss : Stockfish :=
  table_engine
    [(FEN_backrank, line ["e1e8"] (Mate 1));
     (FEN_backrank_Re7, line ["a2a1"] (CentipawnAdvantage (-300)))].

(** The reviewers left by the reviews of the examples. *)
Definition reviewed_e4_e5 : GameReviewer :=
  snd (beginGameReview excerpt_chess engine_e4_e5 (Some ∅)
         (freshReviewer timeline_e4_e5)).

Definition reviewed_failing : GameReviewer :=
  snd (beginGameReview excerpt_chess engine_failing (Some ∅)
         (freshReviewer timeline_e4_e5)).

Definition reviewed_backrank : GameReviewer :=
  snd (beginGameReview excerpt_chess engine_backrank (Some ∅)
         (freshReviewer timeline_backrank)).

Definition reviewed_backrank_miss : GameReviewer :=
  snd (beginGameReview excerpt_chess engine_backrank_miss (Some ∅)
         (freshReviewer timeline_backrank)).

Definition reviewed_forced : GameReviewer :=
  snd (beginGameReview excerpt_chess engine_forced (Some ∅)
         (freshReviewer timeline_forced)).

(** The forced position with the move record attached to the second
    state, as [loadPGN] attaches it. *)
Definition timeline_forced_recorded : list BoardState :=
  [fromFEN FEN_forced; mkBoardState FEN_forced_Kb1 (Some move_Kb1)].

Definition reviewed_forced_recorded : GameReviewer :=
  snd (beginGameReview excerpt_chess engine_forced (Some ∅)
         (freshReviewer timeline_forced_recorded)).

(** An opening book with one entry, and an engine whose top moves are the
    moves of the game 1. e4 e5. *)
Definition book_e4 : gmap string string := {[ FEN_e4 := "King's Pawn Game" ]}.

Definition engine_e4_e5_best : Stockfish :=
  table_engine
    [(INITIAL_BOARD_FEN, line ["e2e4"] (CentipawnAdvantage 0));
     (FEN_e4, line ["e7e5"] (CentipawnAdvantage 20));
     (FEN_e4_e5, line ["g1f3"] (CentipawnAdvantage 15))].

Definition reviewed_e4_e5_book : GameReviewer :=
  snd (beginGameReview excerpt_chess engine_e4_e5_best (Some book_e4)
         (freshReviewer timeline_e4_e5)).

(* ===================================================================== *)
(** ** Histories of a timeline *)
(* ===================================================================== *)

(** The public operations of [BoardTimeline]. *)
Inductive Operation : Type :=
| OpLoadPGN (pgn : string)
| OpLoadFEN (f : string)
| OpMakeMove (fromIndex toIndex : SquareIndex) (promo : option string)
| OpPrevious
| OpNext
| OpJumpToStart
| OpJumpToEnd.

Definition forget {A : Type} (c : completion A) : completion unit :=
  match c with
  | Normal _ => Normal tt
  | Throw e => Throw e
  end.

(** One call of a public operation: how it completes and the state it
    leaves. *)
Definition perform (chess : ChessJs) (op : Operation) (t : BoardTimeline)
    : completion unit * BoardTimeline :=
  match op with
  | OpLoadPGN pgn => let r := loadPGN chess pgn t in (forget (fst r), snd r)
  | OpLoadFEN f => loadFEN chess f t
  | OpMakeMove a b promo => let r := makeMove chess a b promo t in (forget (fst r), snd r)
  | OpPrevious => (Normal tt, snd (previous t))
  | OpNext => (Normal tt, snd (next t))
  | OpJumpToStart => (Normal tt, snd (jumpToStart t))
  | OpJumpToEnd => (Normal tt, snd (jumpToEnd t))
  end.

(** The states reached from a new timeline by public operations that
    return normally. *)
Inductive reachable (chess : ChessJs) : BoardTimeline -> Prop :=
| reachable_new : reachable chess newBoardTimeline
| reachable_step (t t' : BoardTimeline) (op : Operation) :
    reachable chess t ->
    perform chess op t = (Normal tt, t') ->
    reachable chess t'.

(** The states obtained from the root of a hypothetical branch (the cursor
    on its single element) by legal moves. *)
Inductive grown_from_root (chess : ChessJs) : BoardTimeline -> Prop :=
| grown_root (t : BoardTimeline) :
    _position t = mkPosition false 0 ->
    length (_hypothetical t) = 1 ->
    grown_from_root chess t
| grown_move (t t' : BoardTimeline) (a b : SquareIndex) (promo : option string)
    (res : MoveResult) :
    grown_from_root chess t ->
    makeMove chess a b promo t = (Normal res, t') ->
    valid res = true ->
    grown_from_root chess t'.

(** What the timeline invariant says of a state: the cursor is within the
    active branch, the hypothetical branch is empty while the cursor is on
    [main], and the fork index is an index of a non-empty [main]. *)
Definition well_formed (t : BoardTimeline) : Prop :=
  (if main (_position t)
   then _hypothetical t = [] /\ index (_position t) < length (_main t)
   else index (_position t) < length (_hypothetical t))
  /\ (_main t = [] \/ _hypotheticalForksFrom t < length (_main t)).

(** The game 1. e4 e5 imported, the cursor moved to the position after
    1. e4, and 1... c5 played there instead. *)
Definition timeline_imported : BoardTimeline :=
  snd (loadPGN excerpt_chess "1. e4 e5" newBoardTimeline).

Definition timeline_forked : BoardTimeline :=
  snd (makeMove excerpt_chess 10 26 None (snd (next timeline_imported))).

(** Without an imported game: 1. e4 e5 played on the board, then two steps
    back. *)
Definition timeline_played : BoardTimeline :=
  snd (makeMove excerpt_chess 12 28 None
         (snd (makeMove excerpt_chess 52 36 None newBoardTimeline))).

Definition timeline_rewound : BoardTimeline :=
  snd (previous (snd (previous timeline_played))).

(* ===================================================================== *)
(** ** Runs of a review *)
(* ===================================================================== *)

(** The records that [_getEvaluations] appends for the states [rest], given
    the state and the absolute score it remembers from the iteration
    before: each record holds the engine's evaluation of its state and the
    difference of absolute scores, negated when Black is to move in the
    remembered state. *)
Fixpoint records_for (chess : ChessJs) (stockfish : Stockfish)
    (lastState : BoardState) (lastScore : Z) (rest : list BoardState)
    (records : list EvaluationRecord) : Prop :=
  match rest, records with
  | [], [] => True
  | s :: rest', rc :: records' =>
      exists sc : Z,
        getEvaluationToDepth stockfish (fen s) 10 = Some (rec_eval rc)
        /\ evalAsAbsoluteScore (rec_eval rc) = Normal sc
        /\ rec_deltaScore rc
           = match chess_turn chess (fen lastState) with
             | Black => (- (sc - lastScore))%Z
             | White => (sc - lastScore)%Z
             end
        /\ records_for chess stockfish s sc rest' records'
  | _, _ => False
  end.

(** Two reviewer states that differ at most in the progress value. *)
Definition same_but_progress (r r' : GameReviewer) : Prop :=
  _timelineAnnotations r' = _timelineAnnotations r
  /\ _timeline r' = _timeline r
  /\ _busy r' = _busy r
  /\ _completed r' = _completed r.

(** Two reviewer states that differ at most in the annotations. *)
Definition same_but_annotations (r r' : GameReviewer) : Prop :=
  _timeline r' = _timeline r
  /\ _busy r' = _busy r
  /\ _completed r' = _completed r.

(** The top line of an evaluation shows a mate score. *)
Definition showsMate (e : StockfishEval) : bool :=
  match continuations e !! 0 with
  | Some c => hasMate (score c)
  | None => false
  end.

(** The side a mate score is for, by the sign convention of
    [evalAsAbsoluteScore]. *)
Definition mateSide (n : Z) : Color :=
  if (n <? 0)%Z then Black else White.

Definition color_eqb (c d : Color) : bool :=
  match c, d with
  | White, White | Black, Black => true
  | _, _ => false
  end.

(** The Miss rule in the words of the specification: the top line before
    the move shows a mate, and the top line after the move shows no mate for
    the side that had it. *)
Definition missRule_spec (pre post : StockfishEval) : bool :=
  match continuations pre !! 0 with
  | Some c =>
      match score c with
      | Mate n =>
          match continuations post !! 0 with
          | Some c' =>
              match score c' with
              | Mate n' => negb (color_eqb (mateSide n) (mateSide n'))
              | CentipawnAdvantage _ => true
              end
          | None => true
          end
      | CentipawnAdvantage _ => false
      end
  | None => false
  end.

(** The counts of the specification's accuracy: the annotated moves and,
    among them, those with a positive label. *)
Definition annotatedMoves (a : TimelineAnnotations) : nat :=
  length (List.filter (fun x : option Annotation =>
                         match x with Some _ => true | None => false end)
            (_annotations a)).

Definition positiveMoves (a : TimelineAnnotations) : nat :=
  length (List.filter (fun x : option Annotation =>
                         match x with
                         | Some an => isPositiveFeedback (feedback an)
                         | None => false
                         end) (_annotations a)).

(** A slot holds an annotation with the label [f]. *)
Definition hasLabel (f : MoveFeedback) (x : option Annotation) : bool :=
  match x with
  | Some an => feedback_eqb (feedback an) f
  | None => false
  end.

(* ===================================================================== *)
(** ** board.ts: squares *)
(* ===================================================================== *)

(** [s.charCodeAt(i)] for a string of one-byte characters; [None] is the
    [NaN] of an index past the end. *)
Definition charCodeAt (i : nat) (s : string) : option Z :=
  match String.get i s with
  | Some c => Some (Z.of_nat (nat_of_ascii c))
  | None => None
  end.

(** [squareToBoardIndex]: arithmetic on [NaN] gives [NaN] ([None]).
    Precondition of the source: the square is valid. *)
Definition squareToBoardIndex (square : string) : option Z :=
  match charCodeAt 0 square, charCodeAt 1 square with
  | Some c0, Some c1 =>
      let column := (c0 - 97)%Z in
      let row := (56 - c1)%Z in
      Some (row * 8 + column)%Z
  | _, _ => None
  end.

(** The squares of the board: a file letter from a to h and a rank digit
    from 1 to 8. *)
Definition validSquare (square : string) : Prop :=
  exists file rank : nat,
    file < 8 /\ rank < 8
    /\ square = String (ascii_of_nat (97 + file))
                  (String (ascii_of_nat (49 + rank)) EmptyString).

(* ===================================================================== *)
(** ** components/ChessBoard.svelte: the drawing helpers *)
(* ===================================================================== *)

Definition isLightSquare (i : nat) : bool :=
  (i mod 8) mod 2 =? (i / 8) mod 2.

Definition indexAsRowCol (i : nat) : nat * nat := (i / 8, i mod 8).

(** [squareRowAnnotation]: [7 - row + 1] is computed on numbers, so it is
    carried out in [Z]. *)
Definition squareRowAnnotation (i : nat) : option string :=
  let '(row, col) := indexAsRowCol i in
  if col =? 0 then Some (number_to_string (7 - Z.of_nat row + 1)%Z) else None.

Definition squareColumnAnnotation (i : nat) : option string :=
  let '(row, col) := indexAsRowCol i in
  if row =? 7 then Some (String (ascii_of_nat (97 + col)) EmptyString) else None.

Definition pathForMoveFeedbackIcon (f : MoveFeedback) : string :=
  ("/resources/assets/reactions/"
   ++ match f with
      | Book => "book"
      | Brilliant => "brilliant"
      | Best => "best"
      | Miss => "miss"
      | Good => "good"
      | Dubious => "dubious"
      | Blunder => "blunder"
      end ++ ".png")%string.

(** [moveFeedbackAnnotationAtSquare], on the cursor of the timeline state,
    the board state shown and the annotations.  The comparison
    [squareToBoardIndex(...) === index] is false on [NaN]. *)
Definition moveFeedbackAnnotationAtSquare (boardState : BoardState)
    (position : TimelinePosition) (annotations : TimelineAnnotations)
    (i : nat) : option string :=
  if negb (main position) then None
  else
    match getAnnotationAt (index position) annotations with
    | None => None
    | Some annotation =>
        match move boardState with
        | None => None
        | Some m =>
            match squareToBoardIndex (to m) with
            | Some k =>
                if (k =? Z.of_nat i)%Z
                then Some (pathForMoveFeedbackIcon (feedback annotation))
                else None
            | None => None
            end
        end
    end.

(* ===================================================================== *)
(** ** lib/chess/util.ts *)
(* ===================================================================== *)

(** The loop of [range]: [i] runs over integers from the integer [start];
    the bound [end_] is any number (the callers pass a length divided by
    two), a rational here. *)
Equations? range_loop (i : Z) (end_ : Q) (result : list Z) : list Z
    by wf (Z.to_nat (Qceiling end_ - i)) lt :=
  range_loop i end_ result with inspect (Qlt_le_dec (inject_Z i) end_) := {
    | exist _ (left _) _ => range_loop (i + 1) end_ (result ++ [i])
    | exist _ (right _) _ => result }.
Proof.
  clear range_loop e.
  assert (H : (i < Qceiling end_)%Z).
  { apply Z.lt_nge. intros Hc.
    apply (Qlt_irrefl (inject_Z i)).
    eapply Qlt_le_trans; [exact q |].
    eapply Qle_trans; [apply Qle_ceiling |].
    rewrite <- Zle_Qle. exact Hc. }
  lia.
Qed.

Definition range (start : Z) (end_ : Q) : list Z := range_loop start end_ [].

(* ===================================================================== *)
(** ** lib/ui/modal_manager.ts *)
(* ===================================================================== *)

Module ModalManager.
Section Manager.
(** The modal components and their arguments. *)
Variable Component : Type.
Variable Args : Type.

(** The two stores [modal] and [args] (by the value they hold) and the two
    private fields; [None] is [null] or [undefined].  A component is an
    object, hence truthy. *)
Record ModalManager : Type := mkManager {
  modal : option Component;
  _modal : option Component;
  args : option Args;
  _args : option Args
}.

Definition new : ModalManager :=
  {| modal := None; _modal := None; args := None; _args := None |}.

Definition open (component : Component) (a : Args) (force : bool)
    (m : ModalManager) : ModalManager :=
  if match _modal m with Some _ => true | None => false end && negb force
  then m
  else {| modal := Some component;
          _modal := Some component;
          args := Some a;
          _args := Some a |}.

Definition close (m : ModalManager) : ModalManager :=
  {| modal := None; _modal := None; args := args m; _args := _args m |}.

(** The calls a client can make. *)
Inductive Call : Type :=
| CallOpen (component : Component) (a : Args) (force : bool)
| CallClose.

Definition perform (c : Call) (m : ModalManager) : ModalManager :=
  match c with
  | CallOpen component a force => open component a force m
  | CallClose => close m
  end.

End Manager.
End ModalManager.

(* ===================================================================== *)
(** ** chess_interface.ts *)
(* ===================================================================== *)

(** The store built by [new TimelineAnnotations(timeline)] depends on the
    length of the timeline only. *)
Definition emptyAnnotations (n : nat) : TimelineAnnotations :=
  mkAnnotations (replicate n None).

Module ChessInterface.

(** What [BoardState.clone] puts in the [move] field of the copy: a copy of
    the move object, or, for a state without a move, the empty object that
    spreading [null] yields. *)
Inductive MoveObject : Type :=
| MoveCopy (m : Move)
| EmptyObject.

Record BoardStateCopy : Type := mkCopy {
  copy_fen : string;
  copy_move : MoveObject
}.

Definition clone (s : BoardState) : BoardStateCopy :=
  {| copy_fen := fen s;
     copy_move := match move s with
                  | Some m => MoveCopy m
                  | None => EmptyObject
                  end |}.

Definition getMainTimeline (t : BoardTimeline) : list BoardStateCopy :=
  List.map clone (_main t).

Definition getHypotheticalTimeline (t : BoardTimeline) : list BoardStateCopy :=
  List.map clone (_hypothetical t).

Record TimelineState : Type := mkTimelineState {
  state_position : TimelinePosition;
  state_main : list BoardStateCopy;
  state_hypothetical : list BoardStateCopy
}.

(** The four stores, by the value each holds.  [boardState] is [None] when
    [getBoardState] returned [undefined]. *)
Record Stores : Type := mkStores {
  boardState : option BoardState;
  timelineState : TimelineState;
  annotations : TimelineAnnotations;
  matchMetadata : PGNMetadata
}.

Record ChessInterface : Type := mkInterface {
  _timeline : BoardTimeline;
  _annotations : option TimelineAnnotations;
  _matchMetadata : option PGNMetadata;
  stores : Stores
}.

Definition _makeMatchMetadata (md : option PGNMetadata) : PGNMetadata :=
  match md with
  | Some m => m
  | None => ∅
  end.

Definition _makeAnnotations (t : BoardTimeline) (a : option TimelineAnnotations)
    : TimelineAnnotations :=
  match a with
  | Some x => x
  | None => emptyAnnotations (length (getMainTimeline t))
  end.

Definition _makeTimelineState (t : BoardTimeline) : TimelineState :=
  {| state_position := getPosition t;
     state_main := getMainTimeline t;
     state_hypothetical := getHypotheticalTimeline t |}.

(** The values [_updateStores] sets, which are also those the constructor
    creates the stores with. *)
Definition currentStores (t : BoardTimeline) (a : option TimelineAnnotations)
    (md : option PGNMetadata) : Stores :=
  {| boardState := getBoardState t;
     timelineState := _makeTimelineState t;
     annotations := _makeAnnotations t a;
     matchMetadata := _makeMatchMetadata md |}.

Definition _updateStores (c : ChessInterface) : ChessInterface :=
  {| _timeline := _timeline c;
     _annotations := _annotations c;
     _matchMetadata := _matchMetadata c;
     stores := currentStores (_timeline c) (_annotations c) (_matchMetadata c) |}.

Definition new : ChessInterface :=
  {| _timeline := newBoardTimeline;
     _annotations := None;
     _matchMetadata := None;
     stores := currentStores newBoardTimeline None None |}.

Definition with_timeline (t : BoardTimeline) (c : ChessInterface) : ChessInterface :=
  {| _timeline := t;
     _annotations := _annotations c;
     _matchMetadata := _matchMetadata c;
     stores := stores c |}.

(** A navigation method: the timeline method is called and the stores are
    updated when the position it returns differs from the one before. *)
Definition navigate (step : BoardTimeline -> TimelinePosition * BoardTimeline)
    (c : ChessInterface) : TimelinePosition * ChessInterface :=
  let lastPosition := getPosition (_timeline c) in
  let '(newPosition, t') := step (_timeline c) in
  let c' := with_timeline t' c in
  (newPosition,
   if negb (positionsEqual newPosition lastPosition) then _updateStores c' else c').

Definition previous : ChessInterface -> TimelinePosition * ChessInterface :=
  navigate previous.

Definition next : ChessInterface -> TimelinePosition * ChessInterface :=
  navigate next.

Definition jumpToEnd : ChessInterface -> TimelinePosition * ChessInterface :=
  navigate jumpToEnd.

Definition jumpToStart : ChessInterface -> TimelinePosition * ChessInterface :=
  navigate jumpToStart.

Definition makeMove (chess : ChessJs) (fromIndex toIndex : SquareIndex)
    (promo : option string) (c : ChessInterface)
    : completion MoveResult * ChessInterface :=
  let lastPosition := getPosition (_timeline c) in
  match makeMove chess fromIndex toIndex promo (_timeline c) with
  | (Throw e, t') => (Throw e, with_timeline t' c)
  | (Normal result, t') =>
      let c' := with_timeline t' c in
      (Normal result,
       if valid result && negb (positionsEqual (newPosition result) lastPosition)
       then _updateStores c' else c')
  end.

Definition loadAnnotations (a : TimelineAnnotations) (c : ChessInterface)
    : ChessInterface :=
  _updateStores {| _timeline := _timeline c;
                   _annotations := Some a;
                   _matchMetadata := _matchMetadata c;
                   stores := stores c |}.

Definition clearAnnotations (c : ChessInterface) : ChessInterface :=
  _updateStores {| _timeline := _timeline c;
                   _annotations := None;
                   _matchMetadata := _matchMetadata c;
                   stores := stores c |}.

(** [loadPGN]: when [BoardTimeline.loadPGN] throws, the assignment to
    [_matchMetadata] and the update of the stores are not reached. *)
Definition loadPGN (chess : ChessJs) (pgn : string) (c : ChessInterface)
    : completion unit * ChessInterface :=
  match loadPGN chess pgn (_timeline c) with
  | (Throw e, t') => (Throw e, with_timeline t' c)
  | (Normal md, t') =>
      (Normal tt,
       _updateStores {| _timeline := t';
                        _annotations := _annotations c;
                        _matchMetadata := Some md;
                        stores := stores c |})
  end.

(** The calls a client can make. *)
Inductive Call : Type :=
| CallMakeMove (fromIndex toIndex : SquareIndex) (promo : option string)
| CallLoadAnnotations (a : TimelineAnnotations)
| CallClearAnnotations
| CallPrevious
| CallNext
| CallJumpToEnd
| CallJumpToStart
| CallLoadPGN (pgn : string).

(** The interface a call leaves, whether it returns or throws. *)
Definition perform (chess : ChessJs) (call : Call) (c : ChessInterface)
    : ChessInterface :=
  match call with
  | CallMakeMove a b promo => snd (makeMove chess a b promo c)
  | CallLoadAnnotations a => loadAnnotations a c
  | CallClearAnnotations => clearAnnotations c
  | CallPrevious => snd (previous c)
  | CallNext => snd (next c)
  | CallJumpToEnd => snd (jumpToEnd c)
  | CallJumpToStart => snd (jumpToStart c)
  | CallLoadPGN pgn => snd (loadPGN chess pgn c)
  end.

(** The stores show the fields. *)
Definition synced (c : ChessInterface) : Prop :=
  stores c = currentStores (_timeline c) (_annotations c) (_matchMetadata c).

End ChessInterface.

(* ===================================================================== *)
(** ** The timeline: results *)
(* ===================================================================== *)

Lemma positionsEqual_refl (p : TimelinePosition) : positionsEqual p p = true.
Proof.
  unfold positionsEqual. rewrite Bool.eqb_reflx, Nat.eqb_refl. reflexivity.
Qed.

Lemma positionsEqual_eq (p q : TimelinePosition) :
  positionsEqual p q = true <-> p = q.
Proof.
  destruct p as [m i], q as [m' i']. unfold positionsEqual. simpl.
  rewrite andb_true_iff, Bool.eqb_true_iff, Nat.eqb_eq.
  split; [intros [-> ->]; reflexivity | intros H; inversion H; auto].
Qed.

(** The loop of [jumpToStart], one iteration unfolded. *)
Lemma jumpToStart_loop_step (t : BoardTimeline) :
  jumpToStart_loop t =
    if positionsEqual (getPosition t) (getPosition (previous_state t))
    then previous_state t
    else jumpToStart_loop (previous_state t).
Proof.
  rewrite jumpToStart_loop_equation_1.
  unfold previous. simpl.
  destruct (positionsEqual (getPosition t) (getPosition (previous_state t)));
    reflexivity.
Qed.

Lemma jumpToEnd_loop_step (t : BoardTimeline) :
  jumpToEnd_loop t =
    if positionsEqual (getPosition t) (getPosition (next_state t))
    then next_state t
    else jumpToEnd_loop (next_state t).
Proof.
  rewrite jumpToEnd_loop_equation_1.
  unfold next. simpl.
  destruct (positionsEqual (getPosition t) (getPosition (next_state t)));
    reflexivity.
Qed.

(** A property kept by every single step back is kept by [jumpToStart]. *)
Lemma jumpToStart_loop_preserves (P : BoardTimeline -> Prop) :
  (forall t, P t -> P (previous_state t)) ->
  forall t, P t -> P (jumpToStart_loop t).
Proof.
  intros Hstep t.
  induction t as [t IH] using (induction_ltof1 _ back_measure).
  intros Ht. rewrite jumpToStart_loop_step.
  destruct (positionsEqual (getPosition t) (getPosition (previous_state t))) eqn:E.
  - apply Hstep, Ht.
  - apply IH; [| apply Hstep, Ht].
    unfold ltof, previous_state, positionsEqual, getPosition, back_measure in *.
    destruct t as [[m i] mn hy fk]; simpl in *.
    destruct m, (0 <? i) eqn:Hi; simpl in *;
      try (apply Nat.ltb_lt in Hi; lia);
      try (rewrite Nat.eqb_refl in E; discriminate).
    destruct (0 <? length mn); simpl in *;
      [lia | rewrite Nat.eqb_refl in E; discriminate].
Qed.

Lemma jumpToEnd_loop_preserves (P : BoardTimeline -> Prop) :
  (forall t, P t -> P (next_state t)) ->
  forall t, P t -> P (jumpToEnd_loop t).
Proof.
  intros Hstep t.
  induction t as [t IH] using (induction_ltof1 _ forward_measure).
  intros Ht. rewrite jumpToEnd_loop_step.
  destruct (positionsEqual (getPosition t) (getPosition (next_state t))) eqn:E.
  - apply Hstep, Ht.
  - apply IH; [| apply Hstep, Ht].
    unfold ltof, next_state, positionsEqual, getPosition, forward_measure in *.
    destruct t as [[m i] mn hy fk]; simpl in *.
    destruct m; simpl in *.
    + destruct (Z.of_nat i <? Z.of_nat (length mn) - 1)%Z eqn:Hi; simpl in *;
        [apply Z.ltb_lt in Hi; lia | rewrite Nat.eqb_refl in E; discriminate].
    + destruct (Z.of_nat i <? Z.of_nat (length hy) - 1)%Z eqn:Hi; simpl in *;
        [apply Z.ltb_lt in Hi; lia | rewrite Nat.eqb_refl in E; discriminate].
Qed.

(** On [main], [jumpToStart] walks the cursor down to index 0 and touches
    nothing else. *)
Lemma jumpToStart_loop_on_main (i : nat) (mn hy : list BoardState) (fk : nat) :
  jumpToStart_loop (mkTimeline (mkPosition true i) mn hy fk)
  = mkTimeline (mkPosition true 0) mn hy fk.
Proof.
  induction i as [|i IH]; rewrite jumpToStart_loop_step; simpl.
  - reflexivity.
  - unfold previous_state, positionsEqual; simpl.
    replace (i - 0) with i by lia.
    replace (match i with 0 => false | S m' => i =? m' end) with false.
    + exact IH.
    + symmetry. destruct i; [reflexivity |]. apply Nat.eqb_neq. lia.
Qed.

(** On the hypothetical branch without a main line, [jumpToStart] walks the
    cursor down to the root of the branch. *)
Lemma jumpToStart_loop_standalone (i : nat) (hy : list BoardState) (fk : nat) :
  jumpToStart_loop (mkTimeline (mkPosition false i) [] hy fk)
  = mkTimeline (mkPosition false 0) [] hy fk.
Proof.
  induction i as [|i IH]; rewrite jumpToStart_loop_step; simpl.
  - reflexivity.
  - unfold previous_state, positionsEqual; simpl.
    replace (i - 0) with i by lia.
    replace (match i with 0 => false | S m' => i =? m' end) with false.
    + exact IH.
    + symmetry. destruct i; [reflexivity |]. apply Nat.eqb_neq. lia.
Qed.

(** On the hypothetical branch of an imported game, [jumpToStart] walks
    down to the root, collapses the branch onto the fork point and goes on
    down [main] to index 0. *)
Lemma jumpToStart_loop_forked (i : nat) (s : BoardState) (mn hy : list BoardState)
    (fk : nat) :
  jumpToStart_loop (mkTimeline (mkPosition false i) (s :: mn) hy fk)
  = mkTimeline (mkPosition true 0) (s :: mn) [] fk.
Proof.
  induction i as [|i IH]; rewrite jumpToStart_loop_step; simpl.
  - unfold previous_state, positionsEqual; simpl.
    apply jumpToStart_loop_on_main.
  - unfold previous_state, positionsEqual; simpl.
    replace (i - 0) with i by lia.
    replace (match i with 0 => false | S m' => i =? m' end) with false.
    + exact IH.
    + symmetry. destruct i; [reflexivity |]. apply Nat.eqb_neq. lia.
Qed.

(** Whatever the state, a step back after [jumpToStart] changes nothing. *)
Lemma previous_after_jumpToStart (t : BoardTimeline) :
  previous_state (jumpToStart_loop t) = jumpToStart_loop t.
Proof.
  destruct t as [[m i] mn hy fk]. destruct m.
  - rewrite jumpToStart_loop_on_main. reflexivity.
  - destruct mn as [|s mn].
    + rewrite jumpToStart_loop_standalone. reflexivity.
    + rewrite jumpToStart_loop_forked. reflexivity.
Qed.

(** [jumpToStart] is idempotent, whatever the state. *)
Lemma jumpToStart_idempotent (t : BoardTimeline) :
  jumpToStart (snd (jumpToStart t)) = jumpToStart t.
Proof.
  unfold jumpToStart; simpl.
  rewrite (jumpToStart_loop_step (jumpToStart_loop _)).
  rewrite previous_after_jumpToStart, positionsEqual_refl. reflexivity.
Qed.

(** A legal move leaves the cursor on the hypothetical branch. *)
Lemma grown_off_main (chess : ChessJs) (t : BoardTimeline) :
  grown_from_root chess t -> main (_position t) = false.
Proof.
  induction 1 as [t Hp _ | t t' a b promo res _ IH Hmove Hvalid].
  - rewrite Hp. reflexivity.
  - unfold makeMove in Hmove.
    destruct (getBoardState t) as [cur|]; [| discriminate].
    destruct (push chess cur a b promo) as [ns|].
    + rewrite IH in Hmove. inversion Hmove; subst. reflexivity.
    + inversion Hmove; subst. simpl in Hvalid. discriminate.
Qed.

Lemma well_formed_previous (t : BoardTimeline) :
  well_formed t -> well_formed (previous_state t).
Proof.
  unfold well_formed, previous_state.
  destruct t as [[m i] mn hy fk]; simpl.
  intros [Hc Hf].
  destruct m; simpl.
  - destruct (0 <? i) eqn:Hi; simpl; [| auto].
    split; [| assumption]. destruct Hc; split; [assumption | lia].
  - destruct (0 <? i) eqn:Hi; simpl.
    + split; [lia | assumption].
    + destruct (0 <? length mn) eqn:Hm; simpl; [| auto].
      apply Nat.ltb_lt in Hm.
      destruct Hf as [-> | Hf]; [simpl in Hm; lia |]. auto.
Qed.

Lemma well_formed_next (t : BoardTimeline) :
  well_formed t -> well_formed (next_state t).
Proof.
  unfold well_formed, next_state.
  destruct t as [[m i] mn hy fk]; simpl.
  intros [Hc Hf].
  destruct m; simpl.
  - destruct (Z.of_nat i <? Z.of_nat (length mn) - 1)%Z eqn:Hi; simpl; [| auto].
    apply Z.ltb_lt in Hi. split; [| assumption].
    destruct Hc; split; [assumption | lia].
  - destruct (Z.of_nat i <? Z.of_nat (length hy) - 1)%Z eqn:Hi; simpl; [| auto].
    apply Z.ltb_lt in Hi. split; [lia | assumption].
Qed.

Lemma well_formed_makeMove (chess : ChessJs) (a b : SquareIndex)
    (promo : option string) (t : BoardTimeline) :
  well_formed t -> well_formed (snd (makeMove chess a b promo t)).
Proof.
  unfold makeMove. intros Hw.
  destruct (getBoardState t) as [cur|]; [| exact Hw].
  destruct (push chess cur a b promo) as [ns|]; [| exact Hw].
  revert Hw. unfold well_formed.
  destruct t as [[m i] mn hy fk]; simpl.
  intros [Hc Hf]. destruct m; simpl.
  - destruct Hc as [_ Hc]. split; [lia |]. right. exact Hc.
  - split; [| assumption].
    destruct (Z.of_nat i =? Z.of_nat (length hy) - 1)%Z eqn:E.
    + apply Z.eqb_eq in E. rewrite length_app. simpl. lia.
    + rewrite length_app, length_take. simpl. lia.
Qed.

(** Every state reached by public operations that return normally is well
    formed. *)
Lemma well_formed_reachable (chess : ChessJs) (t : BoardTimeline) :
  reachable chess t -> well_formed t.
Proof.
  induction 1 as [| t t' op _ IH Hop].
  - unfold well_formed; simpl. split; [lia | auto].
  - destruct op; simpl in Hop.
    + unfold loadPGN in Hop.
      destruct (chess_loadPgn chess pgn) as [[history header]|];
        simpl in Hop; [| discriminate].
      inversion Hop; subst. unfold well_formed; simpl.
      split; [split; [reflexivity | lia] | right; lia].
    + unfold loadFEN in Hop.
      destruct (chess_load chess f); [| discriminate].
      inversion Hop; subst. unfold well_formed; simpl. split; [lia | auto].
    + inversion Hop; subst. apply well_formed_makeMove, IH.
    + inversion Hop; subst. apply well_formed_previous, IH.
    + inversion Hop; subst. apply well_formed_next, IH.
    + inversion Hop; subst. simpl.
      apply (jumpToStart_loop_preserves well_formed well_formed_previous), IH.
    + inversion Hop; subst. simpl.
      apply (jumpToEnd_loop_preserves well_formed well_formed_next), IH.
Qed.

Lemma timeline_imported_eq :
  timeline_imported
  = mkTimeline (mkPosition true 0)
      [fromFEN INITIAL_BOARD_FEN; mkBoardState FEN_e4 (Some move_e4);
       mkBoardState FEN_e4_e5 (Some move_e5)] [] 0.
Proof. reflexivity. Qed.

Lemma timeline_forked_eq :
  timeline_forked
  = mkTimeline (mkPosition false 0)
      [fromFEN INITIAL_BOARD_FEN; mkBoardState FEN_e4 (Some move_e4);
       mkBoardState FEN_e4_e5 (Some move_e5)]
      [mkBoardState FEN_e4_c5 (Some move_c5)] 1.
Proof. reflexivity. Qed.

Lemma timeline_played_eq :
  timeline_played
  = mkTimeline (mkPosition false 2) []
      [fromFEN INITIAL_BOARD_FEN; mkBoardState FEN_e4 (Some move_e4);
       mkBoardState FEN_e4_e5 (Some move_e5)] 0.
Proof. reflexivity. Qed.

Lemma reachable_imported : reachable excerpt_chess timeline_imported.
Proof.
  apply (reachable_step _ newBoardTimeline _ (OpLoadPGN "1. e4 e5"));
    [constructor | reflexivity].
Qed.

Lemma reachable_forked : reachable excerpt_chess timeline_forked.
Proof.
  apply (reachable_step _ (snd (next timeline_imported)) _ (OpMakeMove 10 26 None));
    [| reflexivity].
  apply (reachable_step _ timeline_imported _ OpNext); [| reflexivity].
  exact reachable_imported.
Qed.

Lemma grown_played : grown_from_root excerpt_chess timeline_played.
Proof.
  apply (grown_move _ (snd (makeMove excerpt_chess 52 36 None newBoardTimeline))
           _ 12 28 None (mkMoveResult true (mkPosition false 2)));
    [| reflexivity | reflexivity].
  apply (grown_move _ newBoardTimeline _ 52 36 None
           (mkMoveResult true (mkPosition false 1)));
    [| reflexivity | reflexivity].
  apply grown_root; reflexivity.
Qed.

(** C4 (counterexample).  With the game 1. e4 e5 imported and 1... c5 played
    from the position after 1. e4, the hypothetical branch forks from index
    1 of [main]; stepping back until the cursor stops changing ends at index
    0 of [main], not at the fork point. *)
Lemma jumpToStart_fork_counterexample :
  reachable excerpt_chess timeline_forked
  /\ grown_from_root excerpt_chess timeline_forked
  /\ _main timeline_forked <> []
  /\ fst (jumpToStart timeline_forked) = mkPosition true 0
  /\ fst (jumpToStart timeline_forked)
     <> mkPosition true (_hypotheticalForksFrom timeline_forked).
Proof.
  split; [exact reachable_forked |].
  split; [apply grown_root; reflexivity |].
  unfold jumpToStart. rewrite timeline_forked_eq, jumpToStart_loop_forked. simpl.
  repeat split; discriminate.
Qed.

(** C4 (as amended).  From a state obtained from the root of the
    hypothetical branch by legal moves, stepping back until the cursor stops
    changing leaves the cursor at [{main: false, index: 0}] when [main] is
    empty; when [main] is not empty, [index + 1] steps back collapse the
    branch onto the fork point [{main: true, index: forkIndex}] and the
    walk goes on down [main] to [{main: true, index: 0}], the hypothetical
    branch being discarded.  [jumpToStart] is idempotent. *)
Theorem jumpToStart_from_branch (chess : ChessJs) (t : BoardTimeline) :
  grown_from_root chess t ->
  (_main t = [] ->
     jumpToStart t
     = (mkPosition false 0,
        mkTimeline (mkPosition false 0) [] (_hypothetical t)
          (_hypotheticalForksFrom t)))
  /\ (_main t <> [] ->
        Nat.iter (S (index (_position t))) previous_state t
        = mkTimeline (mkPosition true (_hypotheticalForksFrom t)) (_main t) []
            (_hypotheticalForksFrom t)
        /\ jumpToStart t
           = (mkPosition true 0,
              mkTimeline (mkPosition true 0) (_main t) []
                (_hypotheticalForksFrom t)))
  /\ jumpToStart (snd (jumpToStart t)) = jumpToStart t.
Proof.
  intros Hg. apply grown_off_main in Hg.
  destruct t as [[m i] mn hy fk]; simpl in *. subst m.
  split; [| split].
  - intros ->. unfold jumpToStart.
    rewrite jumpToStart_loop_standalone. reflexivity.
  - intros Hne. destruct mn as [|s mn]; [congruence |]. split.
    + clear Hne. induction i as [|i IH]; [reflexivity |].
      rewrite Nat.iter_succ_r.
      replace (previous_state (mkTimeline (mkPosition false (S i)) (s :: mn) hy fk))
        with (mkTimeline (mkPosition false i) (s :: mn) hy fk); [exact IH |].
      unfold previous_state; simpl. replace (i - 0) with i by lia. reflexivity.
    + unfold jumpToStart. rewrite jumpToStart_loop_forked. reflexivity.
  - apply jumpToStart_idempotent.
Qed.

Lemma jumpToStart_from_branch_witness :
  grown_from_root excerpt_chess timeline_played
  /\ jumpToStart timeline_played
     = (mkPosition false 0,
        mkTimeline (mkPosition false 0) [] (_hypothetical timeline_played)
          (_hypotheticalForksFrom timeline_played)).
Proof.
  split; [exact grown_played |].
  exact (proj1 (jumpToStart_from_branch excerpt_chess timeline_played grown_played)
           eq_refl).
Defined.

(** C5 (counterexample).  Importing a game empties the hypothetical branch:
    the state after [loadPGN] is reachable and its hypothetical branch has
    no element. *)
Lemma hypothetical_empty_after_loadPGN :
  ~ (forall t : BoardTimeline,
       reachable excerpt_chess t -> 1 <= length (_hypothetical t)).
Proof.
  intros H. specialize (H timeline_imported reachable_imported).
  rewrite timeline_imported_eq in H. simpl in H. lia.
Qed.

(** C5 (as amended).  In every state reached from a new timeline by public
    operations that return normally, the hypothetical branch holds at least
    one element, and the cursor points into it, whenever the cursor is on
    the hypothetical branch; while the cursor is on [main] the hypothetical
    branch is empty. *)
Theorem hypothetical_nonempty_off_main (chess : ChessJs) (t : BoardTimeline) :
  reachable chess t ->
  (main (_position t) = false ->
     1 <= length (_hypothetical t)
     /\ index (_position t) < length (_hypothetical t))
  /\ (main (_position t) = true -> _hypothetical t = []).
Proof.
  intros Hr. apply well_formed_reachable in Hr.
  destruct Hr as [Hc _].
  destruct (main (_position t)); split; intros E; try discriminate.
  - tauto.
  - lia.
Qed.

Lemma hypothetical_nonempty_off_main_witness :
  reachable excerpt_chess timeline_forked
  /\ 1 <= length (_hypothetical timeline_forked).
Proof.
  split; [exact reachable_forked |].
  exact (proj1 (proj1 (hypothetical_nonempty_off_main excerpt_chess timeline_forked
                         reachable_forked) eq_refl)).
Defined.

(** Why the operations must return normally: [loadFEN] resets the cursor
    and [main] before chess.js rejects the FEN, so a rejected [loadFEN]
    after an import leaves the cursor on an empty hypothetical branch. *)
Example loadFEN_rejected_after_import :
  loadFEN excerpt_chess "not a position" timeline_imported
  = (Throw ChessJsError, mkTimeline (mkPosition false 0) [] [] 0).
Proof. reflexivity. Qed.

(** C6.  A legal [makeMove] from the cursor [{main: true, index: k}] sets
    the fork index to [k], makes the hypothetical branch the single new
    state and puts the cursor at [{main: false, index: 0}]; from the cursor
    [{main: false, index: j}] it keeps the first [j + 1] states of the
    hypothetical branch, appends the new state and puts the cursor at index
    [j + 1].  The result is valid and carries the new cursor. *)
Theorem makeMove_legal (chess : ChessJs) (a b : SquareIndex)
    (promo : option string) (t : BoardTimeline) (current nextState : BoardState) :
  getBoardState t = Some current ->
  push chess current a b promo = Some nextState ->
  makeMove chess a b promo t
  = if main (_position t) then
      (Normal (mkMoveResult true (mkPosition false 0)),
       mkTimeline (mkPosition false 0) (_main t) [nextState]
         (index (_position t)))
    else
      (Normal (mkMoveResult true (mkPosition false (index (_position t) + 1))),
       mkTimeline (mkPosition false (index (_position t) + 1)) (_main t)
         (take (index (_position t) + 1) (_hypothetical t) ++ [nextState])
         (_hypotheticalForksFrom t)).
Proof.
  intros Hcur Hpush. unfold makeMove. rewrite Hcur, Hpush.
  destruct t as [[m i] mn hy fk]; simpl in *.
  destruct m; [reflexivity |].
  unfold getPosition; simpl.
  destruct (Z.of_nat i =? Z.of_nat (length hy) - 1)%Z eqn:E; [| reflexivity].
  apply Z.eqb_eq in E. rewrite take_ge by lia. reflexivity.
Qed.

Lemma makeMove_legal_witness :
  getBoardState timeline_rewound = Some (fromFEN INITIAL_BOARD_FEN)
  /\ push excerpt_chess (fromFEN INITIAL_BOARD_FEN) 51 35 None
     = Some (mkBoardState FEN_d4 (Some move_d4))
  /\ makeMove excerpt_chess 51 35 None timeline_rewound
     = (Normal (mkMoveResult true (mkPosition false 1)),
        mkTimeline (mkPosition false 1) []
          [fromFEN INITIAL_BOARD_FEN; mkBoardState FEN_d4 (Some move_d4)] 0).
Proof.
  split; [reflexivity |]. split; [reflexivity |].
  exact (makeMove_legal excerpt_chess 51 35 None timeline_rewound
           (fromFEN INITIAL_BOARD_FEN) (mkBoardState FEN_d4 (Some move_d4))
           eq_refl eq_refl).
Defined.

(** C7.  [previous] returns the cursor of the state it leaves.  It
    decrements a positive cursor index on either branch; on the
    hypothetical branch at index 0 with a non-empty [main] it moves the
    cursor to [{main: true, index: forkIndex}] and empties the hypothetical
    branch; in every other case the state is unchanged. *)
Theorem previous_cases (t : BoardTimeline) :
  fst (previous t) = getPosition (snd (previous t))
  /\ (0 < index (_position t) ->
        snd (previous t)
        = mkTimeline (mkPosition (main (_position t)) (index (_position t) - 1))
            (_main t) (_hypothetical t) (_hypotheticalForksFrom t))
  /\ (index (_position t) = 0 -> main (_position t) = false -> _main t <> [] ->
        snd (previous t)
        = mkTimeline (mkPosition true (_hypotheticalForksFrom t)) (_main t) []
            (_hypotheticalForksFrom t))
  /\ (index (_position t) = 0 -> main (_position t) = true \/ _main t = [] ->
        snd (previous t) = t).
Proof.
  unfold previous, previous_state, getPosition.
  destruct t as [[m i] mn hy fk]; simpl.
  split; [reflexivity |]. split; [| split].
  - intros Hi. apply Nat.ltb_lt in Hi. rewrite Hi. destruct m; reflexivity.
  - intros -> -> Hne. simpl. destruct mn; [congruence | reflexivity].
  - intros -> [-> | ->]; simpl; [reflexivity |]. destruct m; reflexivity.
Qed.

Lemma previous_cases_witness :
  index (_position timeline_forked) = 0
  /\ main (_position timeline_forked) = false
  /\ _main timeline_forked <> []
  /\ snd (previous timeline_forked)
     = mkTimeline (mkPosition true 1) (_main timeline_forked) [] 1.
Proof.
  split; [reflexivity |]. split; [reflexivity |].
  assert (Hne : _main timeline_forked <> []) by discriminate.
  split; [exact Hne |].
  exact (proj1 (proj2 (proj2 (previous_cases timeline_forked))) eq_refl eq_refl Hne).
Defined.

(* ===================================================================== *)
(** ** The review: results *)
(* ===================================================================== *)

Section ReviewResults.
Variable chess : ChessJs.
Variable stockfish : Stockfish.
Variable openings : option (gmap string string).

Lemma same_but_progress_refl (r : GameReviewer) : same_but_progress r r.
Proof. repeat split. Qed.

Lemma same_but_progress_trans (r1 r2 r3 : GameReviewer) :
  same_but_progress r1 r2 -> same_but_progress r2 r3 -> same_but_progress r1 r3.
Proof.
  unfold same_but_progress. intros (A & B & C & D) (A' & B' & C' & D').
  repeat split; congruence.
Qed.

(** Whether it returns or throws, the evaluation loop writes the progress
    value only. *)
Lemma getEvaluations_loop_frame (rest : list BoardState) :
  forall n i lastState lastScore evaluations r,
    same_but_progress r
      (snd (getEvaluations_loop chess stockfish n i rest lastState lastScore
              evaluations r)).
Proof.
  induction rest as [|s rest IH]; intros n i ls lsc evs r; simpl.
  - apply same_but_progress_refl.
  - unfold bind at 1.
    destruct (getEvaluationToDepth stockfish (fen s) 10) as [e|]; simpl;
      [| apply same_but_progress_refl].
    unfold bind at 1, lift. simpl.
    destruct (evalAsAbsoluteScore e) as [sc|ex]; simpl;
      [| apply same_but_progress_refl].
    unfold bind at 1. simpl.
    eapply same_but_progress_trans; [| apply IH].
    repeat split.
Qed.

Lemma getEvaluations_frame (r : GameReviewer) :
  same_but_progress r (snd (_getEvaluations chess stockfish r)).
Proof.
  unfold _getEvaluations. destruct (_timeline r).
  - apply same_but_progress_refl.
  - apply getEvaluations_loop_frame.
Qed.

(** A run of the evaluation loop that returns has appended one record per
    state, each as [records_for] describes. *)
Lemma getEvaluations_loop_records (rest : list BoardState) :
  forall n i lastState lastScore evaluations r evaluations' r',
    getEvaluations_loop chess stockfish n i rest lastState lastScore
      evaluations r = (Normal evaluations', r') ->
    exists records,
      evaluations' = evaluations ++ records
      /\ records_for chess stockfish lastState lastScore rest records.
Proof.
  induction rest as [|s rest IH]; intros n i ls lsc evs r evs' r'; simpl.
  - unfold ret. intros H. inversion H; subst.
    exists []. rewrite app_nil_r. split; [reflexivity | exact I].
  - unfold bind at 1.
    destruct (getEvaluationToDepth stockfish (fen s) 10) as [e|] eqn:He; simpl;
      [| unfold throw; discriminate].
    unfold bind at 1, lift. simpl.
    destruct (evalAsAbsoluteScore e) as [sc|ex] eqn:Hsc; simpl; [| discriminate].
    unfold bind at 1. simpl.
    intros H. apply IH in H. destruct H as (records & -> & Hrec).
    eexists (_ :: records). split.
    + rewrite <- app_assoc. reflexivity.
    + simpl. exists sc. repeat split; assumption.
Qed.

Lemma records_for_length (rest : list BoardState) :
  forall lastState lastScore records,
    records_for chess stockfish lastState lastScore rest records ->
    length records = length rest.
Proof.
  induction rest as [|s rest IH]; intros ls lsc [|rc records]; simpl;
    try tauto.
  intros (sc & _ & _ & _ & H). f_equal. eapply IH, H.
Qed.

(** Two neighbouring states of the walk: the record of the second holds the
    difference of the two absolute scores, negated when Black is to move in
    the first. *)
Lemma records_for_adjacent (rest : list BoardState) :
  forall lastState lastScore records j sp sc,
    records_for chess stockfish lastState lastScore rest records ->
    rest !! j = Some sp ->
    rest !! (S j) = Some sc ->
    exists rp rc ap ac,
      records !! j = Some rp /\ records !! (S j) = Some rc
      /\ getEvaluationToDepth stockfish (fen sp) 10 = Some (rec_eval rp)
      /\ getEvaluationToDepth stockfish (fen sc) 10 = Some (rec_eval rc)
      /\ evalAsAbsoluteScore (rec_eval rp) = Normal ap
      /\ evalAsAbsoluteScore (rec_eval rc) = Normal ac
      /\ rec_deltaScore rc
         = match chess_turn chess (fen sp) with
           | Black => (- (ac - ap))%Z
           | White => (ac - ap)%Z
           end.
Proof.
  induction rest as [|s rest IH]; intros ls lsc records j sp sc Hrec Hp Hc.
  - discriminate.
  - destruct records as [|rc records]; simpl in Hrec; [tauto |].
    destruct Hrec as (a & He & Ha & _ & Hrec).
    destruct j as [|j].
    + simpl in Hp. inversion Hp; subst s. clear Hp.
      destruct rest as [|s2 rest]; [discriminate |].
      simpl in Hc. inversion Hc; subst s2. clear Hc.
      destruct records as [|rc2 records]; simpl in Hrec; [tauto |].
      destruct Hrec as (a2 & He2 & Ha2 & Hd & _).
      exists rc, rc2, a, a2. repeat split; assumption.
    + simpl in Hp, Hc.
      destruct (IH _ _ _ _ _ _ Hrec Hp Hc) as (rp & rc' & ap & ac & H).
      exists rp, rc', ap, ac. exact H.
Qed.

(** An annotation carries the evaluation and the delta score of the record
    at its index. *)
Lemma annotate_fields (book : gmap string string) (timeline : list BoardState)
    (evaluations : list EvaluationRecord) (i : nat) (a : Annotation) :
  annotate chess book timeline evaluations i = Normal a ->
  exists cur,
    evaluations !! i = Some cur
    /\ evaluation a = rec_eval cur
    /\ deltaScore a = rec_deltaScore cur.
Proof.
  unfold annotate. intros H.
  destruct (evaluations !! i) as [cur|]; [| discriminate].
  destruct (evaluations !! (i - 1)) as [prev|]; [| discriminate].
  destruct (continuations (rec_eval prev) !! 0) as [top|]; [| discriminate].
  destruct (continuation top !! 0) as [bm|]; [| discriminate].
  destruct (timeline !! (i - 1)) as [ps|]; [| discriminate].
  destruct (chess_move chess (fen ps) _ _ _) as [pl|]; [| discriminate].
  destruct (judge _ _ _ _ _ _ _) as [[fb descr]|]; [| discriminate].
  inversion H; subst. exists cur. repeat split.
Qed.

Lemma getAnnotationAt_add (i : nat) (an : Annotation) (a : TimelineAnnotations) :
  getAnnotationAt i (addAnnotation i an a) = Some an.
Proof.
  unfold getAnnotationAt, addAnnotation.
  destruct (i <? length (_annotations a)) eqn:E; simpl.
  - apply Nat.ltb_lt in E. rewrite list_lookup_insert_eq by exact E. reflexivity.
  - apply Nat.ltb_ge in E.
    rewrite lookup_app_r by exact E.
    rewrite lookup_app_r by (rewrite length_replicate; lia).
    rewrite length_replicate.
    replace (i - length (_annotations a) - (i - length (_annotations a))) with 0
      by lia.
    reflexivity.
Qed.

Lemma addAnnotation_other (i j : nat) (an : Annotation) (a : TimelineAnnotations) :
  i < length (_annotations a) -> i <> j ->
  _annotations (addAnnotation i an a) !! j = _annotations a !! j.
Proof.
  intros Hi Hne. unfold addAnnotation.
  apply Nat.ltb_lt in Hi. rewrite Hi. simpl.
  apply list_lookup_insert_ne. exact Hne.
Qed.

Lemma addAnnotation_length (i : nat) (an : Annotation) (a : TimelineAnnotations) :
  i < length (_annotations a) ->
  length (_annotations (addAnnotation i an a)) = length (_annotations a).
Proof.
  intros Hi. unfold addAnnotation.
  apply Nat.ltb_lt in Hi. rewrite Hi. simpl. apply length_insert.
Qed.

(** Whether it returns or throws, the annotation loop writes the
    annotations only. *)
Lemma annotate_loop_frame (book : gmap string string)
    (evaluations : list EvaluationRecord) (indices : list nat) :
  forall r,
    same_but_annotations r
      (snd (annotate_loop chess book evaluations indices r)).
Proof.
  induction indices as [|i indices IH]; intros r; simpl.
  - repeat split.
  - unfold bind at 1.
    destruct (annotate chess book (_timeline r) evaluations i) as [an|ex];
      [| repeat split].
    unfold bind at 1. simpl.
    destruct (IH (snd (add_annotation i an r))) as (A & B & C).
    unfold same_but_annotations. simpl in *. rewrite A, B, C. repeat split.
Qed.

(** A run of the annotation loop that returns has stored, at every index it
    visited, the annotation computed for that index, and has left the other
    slots as they were. *)
Lemma annotate_loop_result (book : gmap string string)
    (evaluations : list EvaluationRecord) (indices : list nat) :
  forall r r',
    annotate_loop chess book evaluations indices r = (Normal tt, r') ->
    NoDup indices ->
    (forall i, i ∈ indices -> i < length (_annotations (_timelineAnnotations r))) ->
    length (_annotations (_timelineAnnotations r'))
    = length (_annotations (_timelineAnnotations r))
    /\ (forall i, i ∈ indices ->
          exists a,
            annotate chess book (_timeline r) evaluations i = Normal a
            /\ getAnnotationAt i (_timelineAnnotations r') = Some a)
    /\ (forall j, j ∉ indices ->
          _annotations (_timelineAnnotations r') !! j
          = _annotations (_timelineAnnotations r) !! j).
Proof.
  induction indices as [|i indices IH]; intros r r' Hrun Hnd Hin; simpl in Hrun.
  - inversion Hrun; subst. repeat split.
    intros i Hi. inversion Hi.
  - unfold bind at 1 in Hrun.
    destruct (annotate chess book (_timeline r) evaluations i) as [an|ex] eqn:Han;
      [| discriminate].
    unfold bind at 1 in Hrun. simpl in Hrun.
    apply NoDup_cons in Hnd. destruct Hnd as [Hni Hnd].
    assert (Hi : i < length (_annotations (_timelineAnnotations r)))
      by (apply Hin; left).
    apply IH in Hrun; [| exact Hnd |].
    + simpl in Hrun. destruct Hrun as (Hlen & Hvis & Hoth).
      rewrite addAnnotation_length in Hlen by exact Hi.
      split; [exact Hlen |]. split.
      * intros k Hk. apply elem_of_cons in Hk. destruct Hk as [-> | Hk].
        -- exists an. split; [exact Han |].
           unfold getAnnotationAt. rewrite (Hoth i Hni).
           apply getAnnotationAt_add.
        -- apply Hvis, Hk.
      * intros j Hj. apply not_elem_of_cons in Hj. destruct Hj as [Hji Hj].
        rewrite (Hoth j Hj). apply addAnnotation_other; [exact Hi | congruence].
    + simpl. intros k Hk. rewrite addAnnotation_length by exact Hi.
      apply Hin. right. exact Hk.
Qed.

(** What a run of [beginGameReview] that returns went through. *)
Lemma beginGameReview_returns (r r' : GameReviewer) :
  beginGameReview chess stockfish openings r = (Normal tt, r') ->
  exists evaluations book r1 r2,
    _busy r = false /\ _completed r = false
    /\ _getEvaluations chess stockfish (snd (set_busy true r))
       = (Normal evaluations, r1)
    /\ openings = Some book
    /\ annotate_loop chess book evaluations (seq 1 (length evaluations - 1)) r1
       = (Normal tt, r2)
    /\ r' = snd (set_completed true (snd (set_busy false r2))).
Proof.
  unfold beginGameReview.
  destruct (_busy r); [discriminate |].
  destruct (_completed r); [discriminate |].
  unfold bind at 1. simpl.
  unfold bind at 1.
  destruct (_getEvaluations chess stockfish _) as [[evs|ex] r1] eqn:He;
    [| discriminate].
  unfold bind at 1.
  destruct openings as [book|]; simpl; [| discriminate].
  unfold bind at 1.
  destruct (annotate_loop chess book evs _ r1) as [[[]|ex] r2] eqn:Ha;
    [| discriminate].
  unfold bind at 1. simpl.
  intros H. inversion H; subst.
  exists evs, book, r1, r2. repeat split; assumption.
Qed.

(** A run of [beginGameReview] that throws past the two guards leaves the
    reviewer busy and not completed. *)
Lemma beginGameReview_throws (r r' : GameReviewer) (e : Exception) :
  _busy r = false -> _completed r = false ->
  beginGameReview chess stockfish openings r = (Throw e, r') ->
  _busy r' = true /\ _completed r' = false.
Proof.
  intros Hb Hc. unfold beginGameReview. rewrite Hb, Hc.
  unfold bind at 1. simpl. unfold bind at 1.
  pose proof (getEvaluations_frame (snd (set_busy true r))) as (_ & _ & B1 & C1).
  destruct (_getEvaluations chess stockfish _) as [[evs|ex] r1] eqn:He;
    simpl in B1, C1.
  - unfold bind at 1.
    destruct openings as [book|]; simpl.
    + unfold bind at 1.
      pose proof (annotate_loop_frame book evs (seq 1 (length evs - 1)) r1)
        as (_ & B2 & C2).
      destruct (annotate_loop chess book evs _ r1) as [[[]|ex] r2] eqn:Ha;
        simpl in B2, C2.
      * unfold bind at 1. simpl. discriminate.
      * intros H. inversion H; subst. split; congruence.
    + unfold throw. intros H. inversion H; subst. split; congruence.
  - intros H. inversion H; subst. split; congruence.
Qed.

Lemma newGameReviewer_normal (timeline : list BoardState) (r : GameReviewer) :
  newGameReviewer timeline = Normal r ->
  timeline <> [] /\ r = freshReviewer timeline.
Proof.
  unfold newGameReviewer. destruct timeline as [|s timeline]; simpl.
  - discriminate.
  - intros H. inversion H; subst. split; [discriminate | reflexivity].
Qed.

(** A review that returns has walked the whole timeline: one record per
    state, and one annotation per index from 1 on, computed from these
    records. *)
Lemma review_walk (timeline : list BoardState) (r r' : GameReviewer) :
  newGameReviewer timeline = Normal r ->
  beginGameReview chess stockfish openings r = (Normal tt, r') ->
  exists first book evaluations,
    timeline !! 0 = Some first
    /\ openings = Some book
    /\ records_for chess stockfish first 0%Z timeline evaluations
    /\ length (_annotations (_timelineAnnotations r')) = length timeline
    /\ _annotations (_timelineAnnotations r') !! 0 = Some None
    /\ _completed r' = true /\ _busy r' = false
    /\ forall i, 1 <= i < length timeline ->
         exists a,
           annotate chess book timeline evaluations i = Normal a
           /\ getAnnotationAt i (_timelineAnnotations r') = Some a.
Proof.
  intros Hnew Hrun.
  apply newGameReviewer_normal in Hnew. destruct Hnew as [Hne ->].
  apply beginGameReview_returns in Hrun.
  destruct Hrun as (evs & book & r1 & r2 & _ & _ & Hev & Hbook & Hann & ->).
  pose proof (getEvaluations_frame (snd (set_busy true (freshReviewer timeline))))
    as (A1 & T1 & _ & _).
  rewrite Hev in A1, T1. simpl in A1, T1.
  unfold _getEvaluations in Hev. simpl in Hev.
  destruct timeline as [|first timeline]; [congruence |].
  apply getEvaluations_loop_records in Hev.
  destruct Hev as (records & E & Hrec). simpl in E. subst evs.
  pose proof (records_for_length _ _ _ _ Hrec) as Hlen.
  apply annotate_loop_result in Hann.
  - destruct Hann as (Hl & Hvis & Hoth).
    rewrite A1 in Hl, Hoth. rewrite T1 in Hvis.
    unfold newTimelineAnnotations in Hl, Hoth. simpl in Hl, Hoth.
    rewrite length_replicate in Hl.
    exists first, book, records. simpl.
    split; [reflexivity |]. split; [exact Hbook |]. split; [exact Hrec |].
    split; [exact Hl |]. split; [| split; [reflexivity | split; [reflexivity |]]].
    + rewrite Hoth; [reflexivity |].
      rewrite elem_of_seq. lia.
    + intros i Hi. apply Hvis. rewrite elem_of_seq, Hlen. simpl in *. lia.
  - apply NoDup_seq.
  - intros i Hi. rewrite elem_of_seq, Hlen in Hi.
    rewrite A1. unfold newTimelineAnnotations. simpl.
    rewrite length_replicate. simpl in *. lia.
Qed.

(** C3.  After a review that returns, the annotation of every index [i >= 1]
    carries the evaluation of position [i] and a delta score equal to the
    absolute score at [i] minus the absolute score at [i - 1], negated
    exactly when Black is to move in position [i - 1]; so the delta is
    positive exactly when the absolute score moved in favour of the side
    that made the move. *)
Theorem delta_sign_convention (timeline : list BoardState) (r r' : GameReviewer)
    (i : nat) :
  newGameReviewer timeline = Normal r ->
  beginGameReview chess stockfish openings r = (Normal tt, r') ->
  1 <= i < length timeline ->
  exists sp sc ep ec ap ac a,
    timeline !! (i - 1) = Some sp /\ timeline !! i = Some sc
    /\ getEvaluationToDepth stockfish (fen sp) 10 = Some ep
    /\ getEvaluationToDepth stockfish (fen sc) 10 = Some ec
    /\ evalAsAbsoluteScore ep = Normal ap
    /\ evalAsAbsoluteScore ec = Normal ac
    /\ getAnnotationAt i (_timelineAnnotations r') = Some a
    /\ evaluation a = ec
    /\ deltaScore a
       = match chess_turn chess (fen sp) with
         | Black => (- (ac - ap))%Z
         | White => (ac - ap)%Z
         end
    /\ ((0 < deltaScore a)%Z <->
        match chess_turn chess (fen sp) with
        | Black => (ac < ap)%Z
        | White => (ap < ac)%Z
        end).
Proof.
  intros Hnew Hrun Hi.
  destruct (review_walk timeline r r' Hnew Hrun)
    as (first & book & evs & _ & _ & Hrec & _ & _ & _ & _ & Hann).
  destruct (Hann i Hi) as (a & Ha & Hget).
  apply annotate_fields in Ha. destruct Ha as (cur & Hcur & Hev & Hd).
  destruct (lookup_lt_is_Some_2 timeline (i - 1)) as [sp Hsp]; [lia |].
  destruct (lookup_lt_is_Some_2 timeline i) as [sc Hsc]; [lia |].
  destruct i as [|j]; [lia |]. simpl in Hsp. rewrite Nat.sub_0_r in Hsp.
  destruct (records_for_adjacent _ _ _ _ j sp sc Hrec Hsp Hsc)
    as (rp & rc & ap & ac & Hrp & Hrc & Hep & Hec & Hap & Hac & Hdelta).
  rewrite Hcur in Hrc. inversion Hrc; subst rc.
  exists sp, sc, (rec_eval rp), (rec_eval cur), ap, ac, a.
  simpl. rewrite Nat.sub_0_r.
  repeat split; try assumption; try congruence.
  - rewrite Hd, Hdelta. destruct (chess_turn chess (fen sp)); lia.
  - rewrite Hd, Hdelta. destruct (chess_turn chess (fen sp)); lia.
Qed.

(** The evaluation loop throws "Stockfish evaluation failed." at the first
    state on which the engine rejects, when the states before it were
    evaluated and scored. *)
Lemma getEvaluations_loop_fails (pre : list BoardState) :
  forall n i lastState lastScore evaluations r st post,
    (forall s, s ∈ pre ->
       exists e sc,
         getEvaluationToDepth stockfish (fen s) 10 = Some e
         /\ evalAsAbsoluteScore e = Normal sc) ->
    getEvaluationToDepth stockfish (fen st) 10 = None ->
    fst (getEvaluations_loop chess stockfish n i (pre ++ st :: post) lastState
           lastScore evaluations r)
    = Throw (Error "Stockfish evaluation failed.").
Proof.
  induction pre as [|s pre IH]; intros n i ls lsc evs r st post Hpre Hst; simpl.
  - unfold bind at 1. rewrite Hst. reflexivity.
  - destruct (Hpre s) as (e & sc & He & Hsc); [left |].
    unfold bind at 1. rewrite He. simpl.
    unfold bind at 1, lift. rewrite Hsc. simpl.
    unfold bind at 1. simpl.
    apply IH; [| exact Hst].
    intros s' Hs'. apply Hpre. right. exact Hs'.
Qed.

(** C9.  When the engine rejects on a position that the walk reaches, the
    review throws "Stockfish evaluation failed."; afterwards the reviewer is
    not completed, [getAnnotations] returns null and no slot of the
    annotation store has been written. *)
Theorem evaluation_failure_aborts (timeline : list BoardState) (r : GameReviewer)
    (k : nat) (st : BoardState) :
  newGameReviewer timeline = Normal r ->
  timeline !! k = Some st ->
  getEvaluationToDepth stockfish (fen st) 10 = None ->
  (forall j s, j < k -> timeline !! j = Some s ->
     exists e sc,
       getEvaluationToDepth stockfish (fen s) 10 = Some e
       /\ evalAsAbsoluteScore e = Normal sc) ->
  exists r',
    beginGameReview chess stockfish openings r
    = (Throw (Error "Stockfish evaluation failed."), r')
    /\ isCompleted r' = false
    /\ getAnnotations r' = None
    /\ _timelineAnnotations r' = newTimelineAnnotations timeline
    /\ forall i, getAnnotationAt i (_timelineAnnotations r') = None.
Proof.
  intros Hnew Hk Hfail Hbefore.
  apply newGameReviewer_normal in Hnew. destruct Hnew as [Hne ->].
  pose proof (getEvaluations_frame (snd (set_busy true (freshReviewer timeline))))
    as (A1 & _ & _ & C1).
  assert (Hthrow :
    fst (_getEvaluations chess stockfish (snd (set_busy true (freshReviewer timeline))))
    = Throw (Error "Stockfish evaluation failed.")).
  { unfold _getEvaluations. simpl.
    destruct timeline as [|first timeline]; [congruence |].
    rewrite <- (take_drop_middle _ _ _ Hk).
    apply getEvaluations_loop_fails; [| exact Hfail].
    intros s Hs. apply list_elem_of_lookup in Hs. destruct Hs as [j Hj].
    pose proof (lookup_lt_Some _ _ _ Hj) as Hlt.
    rewrite length_take in Hlt.
    rewrite lookup_take_lt in Hj by lia.
    apply (Hbefore j s); [lia | exact Hj]. }
  unfold beginGameReview. simpl.
  unfold bind at 1. simpl. unfold bind at 1.
  destruct (_getEvaluations chess stockfish _) as [c r1]. simpl in *. subst c.
  exists r1. split; [reflexivity |].
  unfold isCompleted, getAnnotations. rewrite C1, A1. simpl.
  repeat split.
  intros i. unfold getAnnotationAt, newTimelineAnnotations. simpl.
  destruct (replicate (length timeline) None !! i) as [x|] eqn:E; [| reflexivity].
  apply lookup_replicate in E. tauto.
Qed.

(** C10.  When [beginGameReview] throws after it has passed its two guards,
    the reviewer is left busy and not completed, and every later call of
    [beginGameReview] throws "Game review already in progress." and changes
    nothing. *)
Theorem failed_review_stays_busy (r r' : GameReviewer) (e : Exception) :
  _busy r = false -> _completed r = false ->
  beginGameReview chess stockfish openings r = (Throw e, r') ->
  isBusy r' = true /\ isCompleted r' = false
  /\ forall n : nat,
       beginGameReview chess stockfish openings
         (Nat.iter n (fun s => snd (beginGameReview chess stockfish openings s)) r')
       = (Throw (Error "Game review already in progress."), r').
Proof.
  intros Hb Hc Hrun.
  destruct (beginGameReview_throws r r' e Hb Hc Hrun) as [Hb' Hc'].
  assert (Hagain : beginGameReview chess stockfish openings r'
                   = (Throw (Error "Game review already in progress."), r')).
  { unfold beginGameReview. rewrite Hb'. reflexivity. }
  split; [exact Hb' |]. split; [exact Hc' |].
  intros n. induction n as [|n IH]; simpl.
  - exact Hagain.
  - rewrite IH. simpl. exact Hagain.
Qed.

(** With a label other than Book, Best and Miss, the label is Good exactly
    when the delta score is at least [-GOOD_CP_LOSS_THRESHOLD], Dubious
    exactly when it is below that and at least
    [-BLUNDER_CP_LOSS_THRESHOLD], and Blunder below: nothing else about the
    position before the move is consulted. *)
Lemma judge_by_delta (book : gmap string string) (movePlayed : option Move)
    (bm bmSan : string) (top : Continuation) (sfEval : StockfishEval) (d : Z)
    (fb : MoveFeedback) (descr : string) :
  judge book movePlayed bm bmSan top sfEval d = Normal (fb, descr) ->
  fb <> Book -> fb <> Best -> fb <> Miss ->
  (fb = Good /\ (- GOOD_CP_LOSS_THRESHOLD <= d)%Z)
  \/ (fb = Dubious /\ (- BLUNDER_CP_LOSS_THRESHOLD <= d < - GOOD_CP_LOSS_THRESHOLD)%Z)
  \/ (fb = Blunder /\ (d < - BLUNDER_CP_LOSS_THRESHOLD)%Z).
Proof.
  unfold judge. intros H NB NBe NM.
  destruct (bookEntry book movePlayed); [inversion H; congruence |].
  destruct (match movePlayed with Some _ => _ | None => _ end);
    [inversion H; congruence |].
  destruct (if hasMate (score top) then _ else _) as [[|]|]; try discriminate;
    [inversion H; congruence |].
  destruct (d >=? - GOOD_CP_LOSS_THRESHOLD)%Z eqn:E1.
  - inversion H; subst. left. split; [reflexivity | lia].
  - destruct (d >=? - BLUNDER_CP_LOSS_THRESHOLD)%Z eqn:E2.
    + inversion H; subst. right. left. split; [reflexivity | lia].
    + destruct (continuations sfEval !! 0); [| discriminate].
      inversion H; subst. right. right. split; [reflexivity | lia].
Qed.

(** The label is Miss exactly when the chain reaches its third test and
    that test holds. *)
Lemma judge_miss (book : gmap string string) (movePlayed : option Move)
    (bm bmSan : string) (top : Continuation) (sfEval : StockfishEval) (d : Z)
    (fb : MoveFeedback) (descr : string) :
  judge book movePlayed bm bmSan top sfEval d = Normal (fb, descr) ->
  fb <> Book -> fb <> Best ->
  (fb = Miss <-> hasMate (score top) = true /\ showsMate sfEval = false).
Proof.
  unfold judge, showsMate. intros H NB NBe.
  destruct (bookEntry book movePlayed); [inversion H; congruence |].
  destruct (match movePlayed with Some _ => _ | None => _ end);
    [inversion H; congruence |].
  destruct (hasMate (score top)).
  - destruct (continuations sfEval !! 0) as [c|]; [| discriminate].
    destruct (hasMate (score c)); simpl in H.
    + split; [| intros [_ ?]; discriminate].
      intros ->.
      destruct (d >=? _)%Z; [inversion H |].
      destruct (d >=? _)%Z; inversion H.
    + inversion H; subst. tauto.
  - split; [| intros [? _]; discriminate].
    intros ->.
    destruct (d >=? _)%Z; [inversion H |].
    destruct (d >=? _)%Z; [inversion H |].
    destruct (continuations sfEval !! 0); inversion H.
Qed.

(** The label of an annotation is the one the chain picks from the top line
    before the move, the evaluation after the move and the delta score. *)
Lemma annotate_judged (book : gmap string string) (timeline : list BoardState)
    (evaluations : list EvaluationRecord) (i : nat) (a : Annotation) :
  annotate chess book timeline evaluations i = Normal a ->
  exists prev cur top movePlayed bm bmSan,
    evaluations !! (i - 1) = Some prev
    /\ evaluations !! i = Some cur
    /\ continuations (rec_eval prev) !! 0 = Some top
    /\ deltaScore a = rec_deltaScore cur
    /\ judge book movePlayed bm bmSan top (rec_eval cur) (rec_deltaScore cur)
       = Normal (feedback a, description a).
Proof.
  unfold annotate. intros H.
  destruct (evaluations !! i) as [cur|]; [| discriminate].
  destruct (evaluations !! (i - 1)) as [prev|]; [| discriminate].
  destruct (continuations (rec_eval prev) !! 0) as [top|] eqn:Htop; [| discriminate].
  destruct (continuation top !! 0) as [bm|]; [| discriminate].
  destruct (timeline !! (i - 1)) as [ps|]; [| discriminate].
  destruct (chess_move chess (fen ps) _ _ _) as [pl|]; [| discriminate].
  destruct (judge _ _ _ _ _ _ _) as [[fb descr]|] eqn:Hj; [| discriminate].
  inversion H; subst. simpl.
  exists prev, cur, top,
    (match timeline !! i with Some s => move s | None => None end), bm, (san pl).
  repeat split; assumption.
Qed.

(** What a review that returns did at an index [i >= 1]: the two
    evaluations it compared and the annotation it stored. *)
Lemma review_step (timeline : list BoardState) (r r' : GameReviewer) (i : nat) :
  newGameReviewer timeline = Normal r ->
  beginGameReview chess stockfish openings r = (Normal tt, r') ->
  1 <= i < length timeline ->
  exists sp sc ep ec a top book movePlayed bm bmSan,
    timeline !! (i - 1) = Some sp /\ timeline !! i = Some sc
    /\ getEvaluationToDepth stockfish (fen sp) 10 = Some ep
    /\ getEvaluationToDepth stockfish (fen sc) 10 = Some ec
    /\ getAnnotationAt i (_timelineAnnotations r') = Some a
    /\ continuations ep !! 0 = Some top
    /\ judge book movePlayed bm bmSan top ec (deltaScore a)
       = Normal (feedback a, description a).
Proof.
  intros Hnew Hrun Hi.
  destruct (review_walk timeline r r' Hnew Hrun)
    as (first & book & evs & _ & _ & Hrec & _ & _ & _ & _ & Hann).
  destruct (Hann i Hi) as (a & Ha & Hget).
  apply annotate_judged in Ha.
  destruct Ha as (prev & cur & top & mp & bm & bmSan & Hprev & Hcur & Htop & Hd & Hj).
  destruct (lookup_lt_is_Some_2 timeline (i - 1)) as [sp Hsp]; [lia |].
  destruct (lookup_lt_is_Some_2 timeline i) as [sc Hsc]; [lia |].
  destruct i as [|j]; [lia |]. simpl in *. rewrite Nat.sub_0_r in *.
  destruct (records_for_adjacent _ _ _ _ j sp sc Hrec Hsp Hsc)
    as (rp & rc & ap & ac & Hrp & Hrc & Hep & Hec & _).
  rewrite Hprev in Hrp. inversion Hrp; subst rp.
  rewrite Hcur in Hrc. inversion Hrc; subst rc.
  exists sp, sc, (rec_eval prev), (rec_eval cur), a, top, book, mp, bm, bmSan.
  rewrite Hd. repeat split; assumption.
Qed.

(** C8 (as amended).  For an index [i >= 1] whose label is neither Book nor
    Best, the label is Miss exactly when the top line before the move shows
    a mate score and the top line after the move shows no mate score at all,
    for either side. *)
Theorem miss_iff_mate_score_lost (timeline : list BoardState) (r r' : GameReviewer)
    (i : nat) :
  newGameReviewer timeline = Normal r ->
  beginGameReview chess stockfish openings r = (Normal tt, r') ->
  1 <= i < length timeline ->
  exists sp sc ep ec a,
    timeline !! (i - 1) = Some sp /\ timeline !! i = Some sc
    /\ getEvaluationToDepth stockfish (fen sp) 10 = Some ep
    /\ getEvaluationToDepth stockfish (fen sc) 10 = Some ec
    /\ getAnnotationAt i (_timelineAnnotations r') = Some a
    /\ (feedback a <> Book -> feedback a <> Best ->
        (feedback a = Miss <-> showsMate ep = true /\ showsMate ec = false)).
Proof.
  intros Hnew Hrun Hi.
  destruct (review_step timeline r r' i Hnew Hrun Hi)
    as (sp & sc & ep & ec & a & top & book & mp & bm & bmSan
        & Hsp & Hsc & Hep & Hec & Hget & Htop & Hj).
  exists sp, sc, ep, ec, a.
  split; [exact Hsp |]. split; [exact Hsc |]. split; [exact Hep |].
  split; [exact Hec |]. split; [exact Hget |].
  intros NB NBe.
  assert (E : showsMate ep = hasMate (score top))
    by (unfold showsMate; rewrite Htop; reflexivity).
  rewrite (judge_miss _ _ _ _ _ _ _ _ _ Hj NB NBe), E. reflexivity.
Qed.

(** For an index [i >= 1] whose label is not Book, Best or Miss, the label
    is Good exactly when the delta score is at least -50 centipawns; the
    number of legal moves of the position before the move plays no part. *)
Lemma good_iff_delta (timeline : list BoardState) (r r' : GameReviewer) (i : nat) :
  newGameReviewer timeline = Normal r ->
  beginGameReview chess stockfish openings r = (Normal tt, r') ->
  1 <= i < length timeline ->
  exists a,
    getAnnotationAt i (_timelineAnnotations r') = Some a
    /\ (feedback a <> Book -> feedback a <> Best -> feedback a <> Miss ->
        (feedback a = Good <-> (- GOOD_CP_LOSS_THRESHOLD <= deltaScore a)%Z)).
Proof.
  intros Hnew Hrun Hi.
  destruct (review_step timeline r r' i Hnew Hrun Hi)
    as (sp & sc & ep & ec & a & top & book & mp & bm & bmSan
        & _ & _ & _ & _ & Hget & _ & Hj).
  exists a. split; [exact Hget |].
  intros NB NBe NM.
  destruct (judge_by_delta _ _ _ _ _ _ _ _ _ Hj NB NBe NM)
    as [[E H] | [[E H] | [E H]]]; rewrite E;
    unfold GOOD_CP_LOSS_THRESHOLD, BLUNDER_CP_LOSS_THRESHOLD in *;
    split; intros; try discriminate; try lia; reflexivity.
Qed.

End ReviewResults.

(* ===================================================================== *)
(** ** The review: examples *)
(* ===================================================================== *)

(** The end-to-end scenario of the specification: the game 1. e4 e5 with
    the absolute evaluations 0, +20, +15 gives the deltas +20 and +5, and
    both moves are Good. *)
Example review_e4_e5 :
  beginGameReview excerpt_chess engine_e4_e5 (Some ∅) (freshReviewer timeline_e4_e5)
  = (Normal tt, reviewed_e4_e5)
  /\ List.map (option_map (fun a => (feedback a, deltaScore a)))
       (_annotations (_timelineAnnotations reviewed_e4_e5))
     = [None; Some (Good, 20%Z); Some (Good, 5%Z)].
Proof. split; reflexivity. Qed.

Lemma delta_sign_convention_witness :
  newGameReviewer timeline_e4_e5 = Normal (freshReviewer timeline_e4_e5)
  /\ beginGameReview excerpt_chess engine_e4_e5 (Some ∅)
       (freshReviewer timeline_e4_e5) = (Normal tt, reviewed_e4_e5)
  /\ 1 <= 2 < length timeline_e4_e5
  /\ exists a,
       getAnnotationAt 2 (_timelineAnnotations reviewed_e4_e5) = Some a
       /\ deltaScore a = 5%Z.
Proof.
  assert (H3 : 1 <= 2 < length timeline_e4_e5) by (simpl; lia).
  assert (H2 : beginGameReview excerpt_chess engine_e4_e5 (Some ∅)
                 (freshReviewer timeline_e4_e5) = (Normal tt, reviewed_e4_e5))
    by reflexivity.
  split; [reflexivity |]. split; [exact H2 |]. split; [exact H3 |].
  destruct (delta_sign_convention excerpt_chess engine_e4_e5 (Some ∅)
              timeline_e4_e5 (freshReviewer timeline_e4_e5) reviewed_e4_e5 2
              eq_refl H2 H3)
    as (sp & sc & ep & ec & ap & ac & a
        & Hsp & Hsc & Hep & Hec & Hap & Hac & Hget & _ & Hd & _).
  exists a. split; [exact Hget |].
  simpl in Hsp, Hsc. injection Hsp as <-. injection Hsc as <-.
  simpl in Hep, Hec. injection Hep as <-. injection Hec as <-.
  simpl in Hap, Hac. injection Hap as <-. injection Hac as <-.
  exact Hd.
Defined.

(** C8 (counterexample).  In the back-rank position White has a mate in one
    (Re8) and plays Re7, after which Black mates in two.  The top line
    before the move shows a mate for White and the top line after the move
    shows none for White, the label is neither Book nor Best, and the move
    is labelled Blunder, not Miss. *)
Lemma miss_rule_counterexample :
  beginGameReview excerpt_chess engine_backrank (Some ∅)
    (freshReviewer timeline_backrank) = (Normal tt, reviewed_backrank)
  /\ getEvaluationToDepth engine_backrank FEN_backrank 10
     = Some (line ["e1e8"] (Mate 1))
  /\ getEvaluationToDepth engine_backrank FEN_backrank_Re7 10
     = Some (line ["a2a1"; "e7e1"; "a1e1"] (Mate (-2)))
  /\ missRule_spec (line ["e1e8"] (Mate 1))
       (line ["a2a1"; "e7e1"; "a1e1"] (Mate (-2))) = true
  /\ exists a,
       getAnnotationAt 1 (_timelineAnnotations reviewed_backrank) = Some a
       /\ feedback a = Blunder
       /\ feedback a <> Book /\ feedback a <> Best
       /\ ~ (feedback a = Miss <->
             missRule_spec (line ["e1e8"] (Mate 1))
               (line ["a2a1"; "e7e1"; "a1e1"] (Mate (-2))) = true).
Proof.
  split; [reflexivity |]. split; [reflexivity |]. split; [reflexivity |].
  split; [reflexivity |].
  eexists. split; [reflexivity |]. simpl.
  split; [reflexivity |]. split; [discriminate |]. split; [discriminate |].
  intros [_ H]. specialize (H eq_refl). discriminate.
Qed.

Lemma miss_iff_mate_score_lost_witness :
  newGameReviewer timeline_backrank = Normal (freshReviewer timeline_backrank)
  /\ beginGameReview excerpt_chess engine_backrank_miss (Some ∅)
       (freshReviewer timeline_backrank) = (Normal tt, reviewed_backrank_miss)
  /\ 1 <= 1 < length timeline_backrank
  /\ exists ep ec a,
       getEvaluationToDepth engine_backrank_miss FEN_backrank 10 = Some ep
       /\ getEvaluationToDepth engine_backrank_miss FEN_backrank_Re7 10 = Some ec
       /\ getAnnotationAt 1 (_timelineAnnotations reviewed_backrank_miss) = Some a
       /\ (feedback a <> Book -> feedback a <> Best ->
           (feedback a = Miss <-> showsMate ep = true /\ showsMate ec = false)).
Proof.
  assert (H3 : 1 <= 1 < length timeline_backrank) by (simpl; lia).
  assert (H2 : beginGameReview excerpt_chess engine_backrank_miss (Some ∅)
                 (freshReviewer timeline_backrank)
               = (Normal tt, reviewed_backrank_miss))
    by reflexivity.
  split; [reflexivity |]. split; [exact H2 |]. split; [exact H3 |].
  destruct (miss_iff_mate_score_lost excerpt_chess engine_backrank_miss (Some ∅)
              timeline_backrank (freshReviewer timeline_backrank)
              reviewed_backrank_miss 1 eq_refl H2 H3)
    as (sp & sc & ep & ec & a & Hsp & Hsc & Hep & Hec & Hget & Hiff).
  simpl in Hsp, Hsc. injection Hsp as <-. injection Hsc as <-.
  exists ep, ec, a. repeat split; try assumption; apply Hiff; assumption.
Defined.

(** In that review the move Re7 is labelled Miss. *)
Example review_backrank_miss :
  option_map feedback (getAnnotationAt 1 (_timelineAnnotations reviewed_backrank_miss))
  = Some Miss.
Proof. reflexivity. Qed.

Lemma evaluation_failure_aborts_witness :
  newGameReviewer timeline_e4_e5 = Normal (freshReviewer timeline_e4_e5)
  /\ timeline_e4_e5 !! 1 = Some (mkBoardState FEN_e4 (Some move_e4))
  /\ getEvaluationToDepth engine_failing FEN_e4 10 = None
  /\ exists r',
       beginGameReview excerpt_chess engine_failing (Some ∅)
         (freshReviewer timeline_e4_e5)
       = (Throw (Error "Stockfish evaluation failed."), r')
       /\ isCompleted r' = false
       /\ getAnnotations r' = None
       /\ _timelineAnnotations r' = newTimelineAnnotations timeline_e4_e5
       /\ forall i, getAnnotationAt i (_timelineAnnotations r') = None.
Proof.
  split; [reflexivity |]. split; [reflexivity |]. split; [reflexivity |].
  apply (evaluation_failure_aborts excerpt_chess engine_failing (Some ∅)
           timeline_e4_e5 (freshReviewer timeline_e4_e5) 1
           (mkBoardState FEN_e4 (Some move_e4)) eq_refl eq_refl eq_refl).
  intros j s Hj Hs. destruct j as [|j]; [| lia].
  simpl in Hs. injection Hs as <-.
  exists (line ["d2d4"] (CentipawnAdvantage 0)), 0%Z. split; reflexivity.
Defined.

Lemma failed_review_stays_busy_witness :
  _busy (freshReviewer timeline_e4_e5) = false
  /\ _completed (freshReviewer timeline_e4_e5) = false
  /\ beginGameReview excerpt_chess engine_failing (Some ∅)
       (freshReviewer timeline_e4_e5)
     = (Throw (Error "Stockfish evaluation failed."), reviewed_failing)
  /\ isBusy reviewed_failing = true
  /\ isCompleted reviewed_failing = false
  /\ beginGameReview excerpt_chess engine_failing (Some ∅) reviewed_failing
     = (Throw (Error "Game review already in progress."), reviewed_failing).
Proof.
  assert (H3 : beginGameReview excerpt_chess engine_failing (Some ∅)
                 (freshReviewer timeline_e4_e5)
               = (Throw (Error "Stockfish evaluation failed."), reviewed_failing))
    by reflexivity.
  split; [reflexivity |]. split; [reflexivity |]. split; [exact H3 |].
  destruct (failed_review_stays_busy excerpt_chess engine_failing (Some ∅)
              (freshReviewer timeline_e4_e5) reviewed_failing
              (Error "Stockfish evaluation failed.") eq_refl eq_refl H3)
    as (Hb & Hc & Hn).
  split; [exact Hb |]. split; [exact Hc |]. exact (Hn 0).
Defined.

(** The chain of tests has no branch for forced moves.  In the position
    [FEN_forced] White has exactly one legal move, Kb1.  Reviewed as two
    positions loaded from their FEN, hence without the move record that
    every state of an imported main line carries from index 1 on, the second
    position gets the delta score -800 and the label Blunder. *)
Example forced_move_labelled_blunder :
  getAllLegalMoves excerpt_chess (fromFEN FEN_forced) = [move_Kb1]
  /\ newGameReviewer timeline_forced = Normal (freshReviewer timeline_forced)
  /\ beginGameReview excerpt_chess engine_forced (Some ∅)
       (freshReviewer timeline_forced) = (Normal tt, reviewed_forced)
  /\ exists a,
       getAnnotationAt 1 (_timelineAnnotations reviewed_forced) = Some a
       /\ deltaScore a = (-800)%Z
       /\ feedback a = Blunder.
Proof.
  split; [reflexivity |]. split; [reflexivity |]. split; [reflexivity |].
  eexists. split; [reflexivity |]. split; reflexivity.
Qed.

(** With the move record attached, the forced move is the engine's top move
    and the second rule labels it Best. *)
Example forced_move_recorded_is_best :
  option_map feedback
    (getAnnotationAt 1 (_timelineAnnotations reviewed_forced_recorded))
  = Some Best.
Proof. reflexivity. Qed.

Lemma positive_count (l : list (option Annotation)) :
  forall n : nat,
    fold_left (fun k (x : option Annotation) =>
                 match x with
                 | Some an => if isPositiveFeedback (feedback an) then k + 1 else k
                 | None => k
                 end) l n
    = n + length (List.filter (fun x : option Annotation =>
                                 match x with
                                 | Some an => isPositiveFeedback (feedback an)
                                 | None => false
                                 end) l).
Proof.
  induction l as [|x l IH]; intros n; simpl.
  - lia.
  - rewrite IH. destruct x as [an|]; [| reflexivity].
    destruct (isPositiveFeedback (feedback an)); simpl; lia.
Qed.

(** [computeAccuracy] is the number of positively labelled slots over the
    number of slots of the store. *)
Lemma computeAccuracy_quotient (a : TimelineAnnotations) :
  computeAccuracy a
  = quotient (inject_Z (Z.of_nat (positiveMoves a))) (annotations_length a).
Proof.
  unfold computeAccuracy, positiveMoves, annotations_length.
  rewrite positive_count. reflexivity.
Qed.

Lemma all_annotated_filter (l : list (option Annotation)) :
  (forall i, i < length l -> exists a, l !! i = Some (Some a)) ->
  length (List.filter (fun x : option Annotation =>
                         match x with Some _ => true | None => false end) l)
  = length l.
Proof.
  induction l as [|x l IH]; intros H; simpl; [reflexivity |].
  destruct (H 0) as [a Ha]; [simpl; lia |].
  simpl in Ha. injection Ha as ->. simpl. f_equal.
  apply IH. intros i Hi. apply (H (S i)). simpl. lia.
Qed.

(** After a review that returns, the store has one slot per position of the
    timeline, of which all but the first hold an annotation; so
    [computeAccuracy] divides the number of positive labels by the number
    of annotated moves plus one. *)
Lemma accuracy_of_review (chess : ChessJs) (stockfish : Stockfish)
    (openings : option (gmap string string)) (timeline : list BoardState)
    (r r' : GameReviewer) :
  newGameReviewer timeline = Normal r ->
  beginGameReview chess stockfish openings r = (Normal tt, r') ->
  exists a,
    getAnnotations r' = Some a
    /\ annotations_length a = length timeline
    /\ annotatedMoves a + 1 = length timeline
    /\ computeAccuracy a
       = Some (inject_Z (Z.of_nat (positiveMoves a))
               / inject_Z (Z.of_nat (annotatedMoves a + 1)))%Q.
Proof.
  intros Hnew Hrun.
  destruct (review_walk chess stockfish openings timeline r r' Hnew Hrun)
    as (first & book & evs & Hfirst & _ & _ & Hlen & H0 & Hc & _ & Hann).
  exists (_timelineAnnotations r').
  unfold getAnnotations. rewrite Hc. simpl.
  assert (Hcount : annotatedMoves (_timelineAnnotations r') + 1 = length timeline).
  { unfold annotatedMoves. rewrite <- Hlen.
    destruct (_annotations (_timelineAnnotations r')) as [|x l] eqn:E;
      [discriminate |].
    simpl in H0. injection H0 as ->. simpl.
    rewrite all_annotated_filter; [lia |].
    intros i Hi.
    destruct (Hann (S i)) as (a & _ & Ha).
    - rewrite <- Hlen. simpl. lia.
    - exists a. unfold getAnnotationAt in Ha. rewrite E in Ha. simpl in Ha.
      destruct (l !! i) as [[y|]|]; congruence. }
  split; [reflexivity |]. split; [exact Hlen |]. split; [exact Hcount |].
  rewrite computeAccuracy_quotient. unfold annotations_length.
  rewrite Hlen, Hcount. unfold quotient.
  destruct timeline; [discriminate | reflexivity].
Qed.

(** C2.  The review of the game 1. e4 e5 annotates two moves, both Good.
    Two of two annotated moves are positive and their weights sum to one,
    yet [computeAccuracy] returns 2/3 and [computeWeightedAccuracy] returns
    1/3 (as 4/12): both divide by the three slots of the store, the slot of
    the starting position included. *)
Theorem accuracy_divides_by_positions :
  beginGameReview excerpt_chess engine_e4_e5 (Some ∅) (freshReviewer timeline_e4_e5)
  = (Normal tt, reviewed_e4_e5)
  /\ exists a,
       getAnnotations reviewed_e4_e5 = Some a
       /\ annotatedMoves a = 2
       /\ positiveMoves a = 2
       /\ numMovesOfType Good a = 2
       /\ annotations_length a = 3
       /\ computeAccuracy a = Some (2 # 3)%Q
       /\ computeWeightedAccuracy a = Some (4 # 12)%Q.
Proof.
  split; [reflexivity |].
  eexists. split; [reflexivity |]. repeat split; reflexivity.
Qed.

(* ===================================================================== *)
(** ** Further results: squares and the timeline *)
(* ===================================================================== *)

(** X1.  For every index of the board, the square name that
    [boardIndexToSquare] gives is mapped back to the index by
    [squareToBoardIndex]. *)
Theorem square_of_index_roundtrip (i : nat) :
  i < 64 -> squareToBoardIndex (boardIndexToSquare i) = Some (Z.of_nat i).
Proof.
  intros H. do 64 (destruct i as [|i]; [reflexivity |]). lia.
Qed.

Lemma square_of_index_roundtrip_witness :
  52 < 64 /\ squareToBoardIndex (boardIndexToSquare 52) = Some 52%Z.
Proof.
  assert (H : 52 < 64) by lia.
  split; [exact H |]. exact (square_of_index_roundtrip 52 H).
Defined.

(** X2.  For every square name (file a to h, rank 1 to 8),
    [squareToBoardIndex] gives an index between 0 and 63 that
    [boardIndexToSquare] maps back to the name. *)
Theorem index_of_square_roundtrip (square : string) :
  validSquare square ->
  exists i : nat,
    squareToBoardIndex square = Some (Z.of_nat i)
    /\ i < 64
    /\ boardIndexToSquare i = square.
Proof.
  intros (file & rank & Hf & Hr & ->).
  exists ((7 - rank) * 8 + file).
  do 8 (destruct file as [|file];
        [do 8 (destruct rank as [|rank];
               [split; [reflexivity | split; [simpl; lia | reflexivity]] |]);
         lia |]).
  lia.
Qed.

Lemma index_of_square_roundtrip_witness :
  validSquare "e2"
  /\ exists i : nat,
       squareToBoardIndex "e2" = Some (Z.of_nat i)
       /\ i < 64
       /\ boardIndexToSquare i = "e2".
Proof.
  assert (H : validSquare "e2").
  { exists 4, 1. split; [lia |]. split; [lia | reflexivity]. }
  split; [exact H |]. exact (index_of_square_roundtrip "e2" H).
Defined.

(** X3.  In every state reached by public operations that return normally
    there is a current board state, so [makeMove] does not throw; the
    cursor is on [main] only when [main] is not empty, and the fork index
    is an index of [main] whenever [main] is not empty. *)
Theorem reachable_current_defined (chess : ChessJs) (t : BoardTimeline) :
  reachable chess t ->
  (exists s, getBoardState t = Some s)
  /\ (forall a b promo, exists res,
        fst (makeMove chess a b promo t) = Normal res)
  /\ (main (_position t) = true -> _main t <> [])
  /\ (_main t <> [] -> _hypotheticalForksFrom t < length (_main t)).
Proof.
  intros Hr. apply well_formed_reachable in Hr. destruct Hr as [Hc Hf].
  assert (Hs : exists s, getBoardState t = Some s).
  { unfold getBoardState. destruct (main (_position t)).
    - destruct Hc as [_ Hc]. apply lookup_lt_is_Some_2 in Hc.
      destruct Hc as [s Hs]. exists s. exact Hs.
    - apply lookup_lt_is_Some_2 in Hc. destruct Hc as [s Hs]. exists s. exact Hs. }
  split; [exact Hs |]. split; [| split].
  - intros a b promo. destruct Hs as [s Hs]. unfold makeMove. rewrite Hs.
    destruct (push chess s a b promo); [| eexists; reflexivity].
    destruct (main (_position t)); eexists; reflexivity.
  - intros Hm. rewrite Hm in Hc. destruct Hc as [_ Hc].
    intros E. rewrite E in Hc. simpl in Hc. lia.
  - intros Hne. destruct Hf as [E | Hf]; [congruence | exact Hf].
Qed.

Lemma reachable_current_defined_witness :
  reachable excerpt_chess timeline_forked
  /\ exists s, getBoardState timeline_forked = Some s.
Proof.
  split; [exact reachable_forked |].
  exact (proj1 (reachable_current_defined excerpt_chess timeline_forked
                  reachable_forked)).
Defined.

(** X4.  The main line is immutable: moves and navigation never change
    [_main]; only [loadPGN] and [loadFEN] replace it. *)
Theorem main_line_immutable (chess : ChessJs) (op : Operation) (t : BoardTimeline) :
  match op with
  | OpLoadPGN _ | OpLoadFEN _ => True
  | _ => _main (snd (perform chess op t)) = _main t
  end.
Proof.
  assert (Hp : forall u, _main (previous_state u) = _main u).
  { intros u. unfold previous_state.
    destruct (main (_position u)), (0 <? index (_position u)); try reflexivity.
    destruct (0 <? length (_main u)); reflexivity. }
  assert (Hn : forall u, _main (next_state u) = _main u).
  { intros u. unfold next_state.
    destruct (main (_position u));
      match goal with |- context [if ?c then _ else _] => destruct c end;
      reflexivity. }
  destruct op; simpl; try exact I.
  - unfold makeMove. destruct (getBoardState t) as [cur|]; [| reflexivity].
    destruct (push chess cur fromIndex toIndex promo); [| reflexivity].
    destruct (main (_position t)); reflexivity.
  - apply Hp.
  - apply Hn.
  - apply (jumpToStart_loop_preserves (fun u => _main u = _main t));
      [| reflexivity].
    intros u Hu. rewrite Hp. exact Hu.
  - apply (jumpToEnd_loop_preserves (fun u => _main u = _main t));
      [| reflexivity].
    intros u Hu. rewrite Hn. exact Hu.
Qed.

(** X5.  After a legal move the current board state is the state the move
    produced, and stepping back once shows again the board state the move
    was made from, with the cursor where it was. *)
Theorem makeMove_then_previous (chess : ChessJs) (a b : SquareIndex)
    (promo : option string) (t : BoardTimeline) (current nextState : BoardState) :
  getBoardState t = Some current ->
  push chess current a b promo = Some nextState ->
  let t' := snd (makeMove chess a b promo t) in
  getBoardState t' = Some nextState
  /\ getBoardState (snd (previous t')) = Some current
  /\ fst (previous t') = getPosition t.
Proof.
  intros Hcur Hpush. unfold makeMove. rewrite Hcur, Hpush.
  unfold getBoardState in Hcur.
  destruct t as [[m i] mn hy fk]; simpl in *.
  destruct m; simpl.
  - split; [reflexivity |].
    unfold previous, previous_state, getBoardState, getPosition; simpl.
    destruct mn as [|s mn]; [rewrite lookup_nil in Hcur; discriminate |].
    simpl. split; [exact Hcur | reflexivity].
  - pose proof (lookup_lt_Some _ _ _ Hcur) as Hlt.
    assert (Hhy : (if (Z.of_nat i =? Z.of_nat (length hy) - 1)%Z
                   then hy ++ [nextState]
                   else take (i + 1) hy ++ [nextState])
                  = take (i + 1) hy ++ [nextState]).
    { destruct (Z.of_nat i =? Z.of_nat (length hy) - 1)%Z eqn:E; [| reflexivity].
      apply Z.eqb_eq in E. rewrite take_ge by lia. reflexivity. }
    rewrite Hhy.
    unfold previous, previous_state, getBoardState, getPosition; simpl.
    replace (i + 1) with (S i) by lia. simpl.
    replace (i - 0) with i by lia.
    split; [| split; [| reflexivity]].
    + rewrite lookup_app_r by (rewrite length_take; lia).
      rewrite length_take. replace (S i - S i `min` length hy) with 0 by lia.
      reflexivity.
    + rewrite lookup_app_l by (rewrite length_take; lia).
      rewrite lookup_take_lt by lia. exact Hcur.
Qed.

Lemma makeMove_then_previous_witness :
  getBoardState timeline_rewound = Some (fromFEN INITIAL_BOARD_FEN)
  /\ push excerpt_chess (fromFEN INITIAL_BOARD_FEN) 51 35 None
     = Some (mkBoardState FEN_d4 (Some move_d4))
  /\ getBoardState (snd (makeMove excerpt_chess 51 35 None timeline_rewound))
     = Some (mkBoardState FEN_d4 (Some move_d4)).
Proof.
  split; [reflexivity |]. split; [reflexivity |].
  exact (proj1 (makeMove_then_previous excerpt_chess 51 35 None timeline_rewound
                  (fromFEN INITIAL_BOARD_FEN) (mkBoardState FEN_d4 (Some move_d4))
                  eq_refl eq_refl)).
Defined.

(** X6.  [previous] undoes [next] whenever [next] moved the cursor, and
    [next] undoes [previous] whenever [previous] decremented an index that
    lies within the active branch. *)
Theorem next_previous_inverse (t : BoardTimeline) :
  (positionsEqual (getPosition t) (fst (next t)) = false ->
     snd (previous (snd (next t))) = t)
  /\ (0 < index (_position t) ->
      index (_position t)
      < length (if main (_position t) then _main t else _hypothetical t) ->
      snd (next (snd (previous t))) = t).
Proof.
  destruct t as [[m i] mn hy fk].
  unfold next, previous, next_state, previous_state, positionsEqual, getPosition.
  simpl. split.
  - destruct m; simpl.
    + destruct (Z.of_nat i <? Z.of_nat (length mn) - 1)%Z; simpl.
      * intros _. replace (0 <? i + 1) with true
          by (symmetry; apply Nat.ltb_lt; lia).
        replace (i + 1 - 1) with i by lia. reflexivity.
      * rewrite Nat.eqb_refl. discriminate.
    + destruct (Z.of_nat i <? Z.of_nat (length hy) - 1)%Z; simpl.
      * intros _. replace (0 <? i + 1) with true
          by (symmetry; apply Nat.ltb_lt; lia).
        replace (i + 1 - 1) with i by lia. reflexivity.
      * rewrite Nat.eqb_refl. discriminate.
  - intros Hi Hlt. apply Nat.ltb_lt in Hi as Hi'. rewrite Hi'.
    destruct m; simpl.
    + replace (Z.of_nat (i - 1) <? Z.of_nat (length mn) - 1)%Z with true
        by (symmetry; apply Z.ltb_lt; lia).
      replace (i - 1 + 1) with i by lia. reflexivity.
    + replace (Z.of_nat (i - 1) <? Z.of_nat (length hy) - 1)%Z with true
        by (symmetry; apply Z.ltb_lt; lia).
      replace (i - 1 + 1) with i by lia. reflexivity.
Qed.

Lemma next_previous_inverse_witness :
  positionsEqual (getPosition timeline_imported) (fst (next timeline_imported))
  = false
  /\ snd (previous (snd (next timeline_imported))) = timeline_imported.
Proof.
  assert (H : positionsEqual (getPosition timeline_imported)
                (fst (next timeline_imported)) = false) by reflexivity.
  split; [exact H |].
  exact (proj1 (next_previous_inverse timeline_imported) H).
Defined.

(** On either branch, [jumpToEnd] moves a cursor that lies within the
    branch to the last index of the branch and changes nothing else. *)
Lemma jumpToEnd_loop_on_main (d : nat) :
  forall (i : nat) (mn hy : list BoardState) (fk : nat),
    i + d + 1 = length mn ->
    jumpToEnd_loop (mkTimeline (mkPosition true i) mn hy fk)
    = mkTimeline (mkPosition true (length mn - 1)) mn hy fk.
Proof.
  induction d as [|d IH]; intros i mn hy fk H; rewrite jumpToEnd_loop_step;
    unfold next_state, positionsEqual, getPosition; simpl.
  - replace (Z.of_nat i <? Z.of_nat (length mn) - 1)%Z with false
      by (symmetry; apply Z.ltb_ge; lia).
    simpl. rewrite Nat.eqb_refl. f_equal. f_equal. lia.
  - replace (Z.of_nat i <? Z.of_nat (length mn) - 1)%Z with true
      by (symmetry; apply Z.ltb_lt; lia).
    simpl. replace (i =? i + 1) with false
      by (symmetry; apply Nat.eqb_neq; lia).
    apply IH. lia.
Qed.

Lemma jumpToEnd_loop_on_hypothetical (d : nat) :
  forall (i : nat) (mn hy : list BoardState) (fk : nat),
    i + d + 1 = length hy ->
    jumpToEnd_loop (mkTimeline (mkPosition false i) mn hy fk)
    = mkTimeline (mkPosition false (length hy - 1)) mn hy fk.
Proof.
  induction d as [|d IH]; intros i mn hy fk H; rewrite jumpToEnd_loop_step;
    unfold next_state, positionsEqual, getPosition; simpl.
  - replace (Z.of_nat i <? Z.of_nat (length hy) - 1)%Z with false
      by (symmetry; apply Z.ltb_ge; lia).
    simpl. rewrite Nat.eqb_refl. f_equal. f_equal. lia.
  - replace (Z.of_nat i <? Z.of_nat (length hy) - 1)%Z with true
      by (symmetry; apply Z.ltb_lt; lia).
    simpl. replace (i =? i + 1) with false
      by (symmetry; apply Nat.eqb_neq; lia).
    apply IH. lia.
Qed.

(** A cursor at or past the last index of its branch is left alone. *)
Lemma jumpToEnd_loop_at_end (t : BoardTimeline) :
  length (if main (_position t) then _main t else _hypothetical t)
  <= index (_position t) + 1 ->
  jumpToEnd_loop t = t.
Proof.
  intros H. rewrite jumpToEnd_loop_step.
  destruct t as [[m i] mn hy fk].
  unfold next_state, positionsEqual, getPosition; simpl in *.
  destruct m.
  - replace (Z.of_nat i <? Z.of_nat (length mn) - 1)%Z with false
      by (symmetry; apply Z.ltb_ge; lia).
    simpl. rewrite Nat.eqb_refl. reflexivity.
  - replace (Z.of_nat i <? Z.of_nat (length hy) - 1)%Z with false
      by (symmetry; apply Z.ltb_ge; lia).
    simpl. rewrite Nat.eqb_refl. reflexivity.
Qed.

(** What [jumpToEnd] does, whatever the state. *)
Lemma jumpToEnd_loop_result (t : BoardTimeline) :
  jumpToEnd_loop t
  = mkTimeline
      (mkPosition (main (_position t))
         (let n := length (if main (_position t) then _main t
                           else _hypothetical t) in
          if index (_position t) + 1 <? n then n - 1 else index (_position t)))
      (_main t) (_hypothetical t) (_hypotheticalForksFrom t).
Proof.
  destruct t as [[m i] mn hy fk]. simpl.
  destruct m.
  - destruct (i + 1 <? length mn) eqn:E.
    + apply Nat.ltb_lt in E.
      apply (jumpToEnd_loop_on_main (length mn - i - 1)). lia.
    + apply Nat.ltb_ge in E. apply jumpToEnd_loop_at_end. simpl. lia.
  - destruct (i + 1 <? length hy) eqn:E.
    + apply Nat.ltb_lt in E.
      apply (jumpToEnd_loop_on_hypothetical (length hy - i - 1)). lia.
    + apply Nat.ltb_ge in E. apply jumpToEnd_loop_at_end. simpl. lia.
Qed.

(** X7.  From a cursor within its branch, [jumpToEnd] returns the last
    index of that branch, stays on the branch and changes neither branch
    nor the fork index.  [jumpToEnd] is idempotent. *)
Theorem jumpToEnd_last_index (t : BoardTimeline) :
  index (_position t)
  < length (if main (_position t) then _main t else _hypothetical t) ->
  jumpToEnd t
  = (mkPosition (main (_position t))
       (length (if main (_position t) then _main t else _hypothetical t) - 1),
     mkTimeline
       (mkPosition (main (_position t))
          (length (if main (_position t) then _main t else _hypothetical t) - 1))
       (_main t) (_hypothetical t) (_hypotheticalForksFrom t))
  /\ jumpToEnd (snd (jumpToEnd t)) = jumpToEnd t.
Proof.
  intros H. unfold jumpToEnd, getPosition. simpl.
  rewrite (jumpToEnd_loop_result (jumpToEnd_loop t)).
  rewrite jumpToEnd_loop_result. simpl.
  set (n := length (if main (_position t) then _main t else _hypothetical t)) in *.
  destruct (index (_position t) + 1 <? n) eqn:E; simpl; fold n.
  - replace (n - 1 + 1 <? n) with false by (symmetry; apply Nat.ltb_ge; lia).
    split; reflexivity.
  - apply Nat.ltb_ge in E. rewrite (proj2 (Nat.ltb_ge _ _) E).
    replace (n - 1) with (index (_position t)) by lia.
    split; reflexivity.
Qed.

Lemma jumpToEnd_last_index_witness :
  index (_position timeline_imported)
  < length (if main (_position timeline_imported) then _main timeline_imported
            else _hypothetical timeline_imported)
  /\ fst (jumpToEnd timeline_imported) = mkPosition true 2.
Proof.
  assert (H : index (_position timeline_imported)
              < length (if main (_position timeline_imported)
                        then _main timeline_imported
                        else _hypothetical timeline_imported))
    by (rewrite timeline_imported_eq; simpl; lia).
  split; [exact H |].
  exact (f_equal fst (proj1 (jumpToEnd_last_index timeline_imported H))).
Defined.

(* ===================================================================== *)
(** ** Further results: evaluations and the annotation store *)
(* ===================================================================== *)

(** X8.  [evalAsAbsoluteScore] throws exactly when the evaluation has no
    outcome and no line, and then with "No continuation found.".  An
    outcome takes precedence over the lines, and a score that comes from an
    outcome or from a mate is one of -1000, 0 and 1000, negative exactly for
    a win of Black or a negative mate count. *)
Theorem evalAsAbsoluteScore_cases (e : StockfishEval) :
  (evalAsAbsoluteScore e = Throw (Error "No continuation found.")
   <-> outcome e = None /\ continuations e = [])
  /\ (forall ex, evalAsAbsoluteScore e = Throw ex ->
        ex = Error "No continuation found.")
  /\ (forall o, outcome e = Some o ->
        evalAsAbsoluteScore e = Normal (outcomeScores o))
  /\ (forall s, evalAsAbsoluteScore e = Normal s ->
        outcome e <> None \/ showsMate e = true ->
        s = (-1000)%Z \/ s = 0%Z \/ s = 1000%Z).
Proof.
  unfold evalAsAbsoluteScore, showsMate.
  destruct e as [d n cs o]; simpl.
  destruct o as [o|].
  - split; [split; [discriminate | intros [? _]; discriminate] |].
    split; [discriminate |].
    split; [intros o' H; inversion H; reflexivity |].
    intros s H _. inversion H; subst. destruct o; simpl; lia.
  - destruct cs as [|c cs]; simpl.
    + split; [split; auto |]. split; [intros ex H; inversion H; reflexivity |].
      split; discriminate.
    + split; [split; [destruct (score c); discriminate
                     | intros [_ ?]; discriminate] |].
      split; [destruct (score c); discriminate |].
      split; [discriminate |].
      intros s H [Ho | Hm]; [congruence |].
      destruct (score c) as [k|k]; [discriminate |].
      inversion H; subst. destruct (k <? 0)%Z; lia.
Qed.

(** X9.  Reading back a slot after [addAnnotation]: the slot written holds
    the annotation, also when the index was past the end of the array, and
    every other slot reads as before. *)
Theorem addAnnotation_lookup (i j : nat) (an : Annotation)
    (a : TimelineAnnotations) :
  getAnnotationAt j (addAnnotation i an a)
  = if i =? j then Some an else getAnnotationAt j a.
Proof.
  destruct (i =? j) eqn:E.
  - apply Nat.eqb_eq in E. subst j. apply getAnnotationAt_add.
  - apply Nat.eqb_neq in E.
    unfold getAnnotationAt, addAnnotation.
    destruct (i <? length (_annotations a)) eqn:Hi; simpl.
    + rewrite list_lookup_insert_ne by exact E. reflexivity.
    + apply Nat.ltb_ge in Hi.
      destruct (Nat.lt_ge_cases j (length (_annotations a))) as [Hj | Hj].
      * rewrite lookup_app_l by exact Hj. reflexivity.
      * rewrite lookup_app_r by exact Hj.
        rewrite (lookup_ge_None_2 (_annotations a) j) by exact Hj.
        destruct (Nat.lt_ge_cases j i) as [Hji | Hji].
        -- rewrite lookup_app_l by (rewrite length_replicate; lia).
           rewrite lookup_replicate_2 by lia. reflexivity.
        -- rewrite lookup_app_r by (rewrite length_replicate; lia).
           rewrite length_replicate.
           rewrite lookup_ge_None_2 by (simpl; lia). reflexivity.
Qed.

(** The slots that hold an annotation with a given label. *)
Lemma numMovesOfType_filter (f : MoveFeedback) (a : TimelineAnnotations) :
  numMovesOfType f a = length (List.filter (hasLabel f) (_annotations a)).
Proof.
  unfold numMovesOfType.
  assert (H : forall l n,
    fold_left (fun k (x : option Annotation) =>
                 match x with
                 | Some an => if feedback_eqb (feedback an) f then k + 1 else k
                 | None => k
                 end) l n
    = n + length (List.filter (hasLabel f) l)).
  { induction l as [|x l IH]; intros n; simpl; [lia |].
    rewrite IH. destruct x as [an|]; [| reflexivity].
    simpl. destruct (feedback_eqb (feedback an) f); simpl; lia. }
  rewrite H. reflexivity.
Qed.

Lemma label_counts (l : list (option Annotation)) :
  length (List.filter (hasLabel Book) l)
  + length (List.filter (hasLabel Brilliant) l)
  + length (List.filter (hasLabel Best) l)
  + length (List.filter (hasLabel Miss) l)
  + length (List.filter (hasLabel Good) l)
  + length (List.filter (hasLabel Dubious) l)
  + length (List.filter (hasLabel Blunder) l)
  = length (List.filter (fun x : option Annotation =>
                           match x with Some _ => true | None => false end) l)
  /\ length (List.filter (fun x : option Annotation =>
                            match x with Some _ => true | None => false end) l)
     <= length l
  /\ length (List.filter (fun x : option Annotation =>
                            match x with
                            | Some an => isPositiveFeedback (feedback an)
                            | None => false
                            end) l)
     = length (List.filter (hasLabel Book) l)
       + length (List.filter (hasLabel Brilliant) l)
       + length (List.filter (hasLabel Best) l)
       + length (List.filter (hasLabel Good) l).
Proof.
  induction l as [|x l (IH1 & IH2 & IH3)]; simpl.
  - repeat split; lia.
  - destruct x as [an|]; simpl.
    + destruct (feedback an); simpl; repeat split; lia.
    + repeat split; lia.
Qed.

(** X10.  The counts by label partition the annotated slots: the seven
    counts of [numMovesOfType] add up to the number of annotated slots, and
    the four counts of Book, Brilliant, Best and Good add up to the
    numerator of [computeAccuracy]. *)
Theorem numMovesOfType_partition (a : TimelineAnnotations) :
  numMovesOfType Book a + numMovesOfType Brilliant a + numMovesOfType Best a
  + numMovesOfType Miss a + numMovesOfType Good a + numMovesOfType Dubious a
  + numMovesOfType Blunder a = annotatedMoves a
  /\ annotatedMoves a <= annotations_length a
  /\ computeAccuracy a
     = quotient (inject_Z (Z.of_nat (numMovesOfType Book a
                                     + numMovesOfType Brilliant a
                                     + numMovesOfType Best a
                                     + numMovesOfType Good a)))
         (annotations_length a).
Proof.
  rewrite computeAccuracy_quotient.
  rewrite !numMovesOfType_filter.
  unfold annotatedMoves, positiveMoves, annotations_length.
  destruct (label_counts (_annotations a)) as (H1 & H2 & H3).
  split; [exact H1 |]. split; [exact H2 |]. rewrite H3. reflexivity.
Qed.

Lemma weighted_fold (l : list (option Annotation)) :
  forall w : Q,
    (fold_left (fun (w : Q) (x : option Annotation) =>
                  match x with
                  | Some an =>
                      match feedback an with
                      | Best => w + 1
                      | Brilliant => w + 1
                      | Good => w + (1 # 2)
                      | Dubious => w + (1 # 4)
                      | _ => w
                      end
                  | None => w
                  end) l w
     == w + inject_Z (Z.of_nat (length (List.filter (hasLabel Best) l)))
        + inject_Z (Z.of_nat (length (List.filter (hasLabel Brilliant) l)))
        + (1 # 2) * inject_Z (Z.of_nat (length (List.filter (hasLabel Good) l)))
        + (1 # 4) * inject_Z (Z.of_nat (length (List.filter (hasLabel Dubious) l))))%Q.
Proof.
  induction l as [|x l IH]; intros w; simpl.
  - ring.
  - etransitivity; [apply IH |].
    destruct x as [an|]; simpl; [| reflexivity].
    destruct (feedback an); simpl;
      repeat match goal with
        | |- context [Z.of_nat (S ?n)] =>
            replace (Z.of_nat (S n)) with (Z.of_nat n + 1)%Z by lia;
            rewrite inject_Z_plus
        end;
      ring.
Qed.

(** X11.  [computeWeightedAccuracy] is the number of Best and Brilliant
    slots, plus half the number of Good slots, plus a quarter of the number
    of Dubious slots, over the number of slots; Book, Miss and Blunder
    weigh nothing.  On an empty store it is [NaN]. *)
Theorem computeWeightedAccuracy_formula (a : TimelineAnnotations) :
  match computeWeightedAccuracy a with
  | None => annotations_length a = 0
  | Some q =>
      0 < annotations_length a
      /\ (q == (inject_Z (Z.of_nat (numMovesOfType Best a))
                + inject_Z (Z.of_nat (numMovesOfType Brilliant a))
                + (1 # 2) * inject_Z (Z.of_nat (numMovesOfType Good a))
                + (1 # 4) * inject_Z (Z.of_nat (numMovesOfType Dubious a)))
               / inject_Z (Z.of_nat (annotations_length a)))%Q
  end.
Proof.
  unfold computeWeightedAccuracy, annotations_length, quotient.
  rewrite !numMovesOfType_filter.
  destruct (length (_annotations a)) eqn:E; [reflexivity |].
  split; [lia |].
  rewrite weighted_fold. field.
  apply Qnot_eq_sym, Qlt_not_eq.
  change 0%Q with (inject_Z 0). rewrite <- Zlt_Qlt. lia.
Qed.

(** X12.  On an empty store both accuracies are [NaN]; on a store with at
    least one slot both are defined and lie between 0 and 1. *)
Theorem accuracy_bounds (a : TimelineAnnotations) :
  (annotations_length a = 0 ->
     computeAccuracy a = None /\ computeWeightedAccuracy a = None)
  /\ (0 < annotations_length a ->
      exists p q : Q,
        computeAccuracy a = Some p /\ computeWeightedAccuracy a = Some q
        /\ (0 <= p <= 1)%Q /\ (0 <= q <= 1)%Q).
Proof.
  split.
  - intros H. unfold computeAccuracy, computeWeightedAccuracy.
    unfold annotations_length in H. rewrite H. split; reflexivity.
  - intros Hlen.
    rewrite computeAccuracy_quotient.
    unfold computeWeightedAccuracy, positiveMoves, annotations_length, quotient in *.
    destruct (label_counts (_annotations a)) as (H1 & H2 & H3).
    rewrite H3.
    destruct (length (_annotations a)) as [|n] eqn:E; [lia |].
    assert (Hpos : (0 < inject_Z (Z.of_nat (S n)))%Q).
    { change 0%Q with (inject_Z 0). rewrite <- Zlt_Qlt. lia. }
    do 2 eexists. split; [reflexivity |]. split; [reflexivity |].
    set (B := length (List.filter (hasLabel Best) (_annotations a))) in *.
    set (R := length (List.filter (hasLabel Brilliant) (_annotations a))) in *.
    set (G := length (List.filter (hasLabel Good) (_annotations a))) in *.
    set (D := length (List.filter (hasLabel Dubious) (_annotations a))) in *.
    set (K := length (List.filter (hasLabel Book) (_annotations a))) in *.
    assert (HB : (0 <= inject_Z (Z.of_nat B))%Q)
      by (change 0%Q with (inject_Z 0); rewrite <- Zle_Qle; lia).
    assert (HR : (0 <= inject_Z (Z.of_nat R))%Q)
      by (change 0%Q with (inject_Z 0); rewrite <- Zle_Qle; lia).
    assert (HG : (0 <= inject_Z (Z.of_nat G))%Q)
      by (change 0%Q with (inject_Z 0); rewrite <- Zle_Qle; lia).
    assert (HD : (0 <= inject_Z (Z.of_nat D))%Q)
      by (change 0%Q with (inject_Z 0); rewrite <- Zle_Qle; lia).
    assert (Hall : (inject_Z (Z.of_nat B) + inject_Z (Z.of_nat R)
                    + inject_Z (Z.of_nat G) + inject_Z (Z.of_nat D)
                    <= inject_Z (Z.of_nat (S n)))%Q).
    { rewrite <- !inject_Z_plus, <- Zle_Qle. lia. }
    split; split.
    + apply Qle_shift_div_l; [exact Hpos |].
      rewrite Qmult_0_l. change 0%Q with (inject_Z 0). rewrite <- Zle_Qle. lia.
    + apply Qle_shift_div_r; [exact Hpos |].
      rewrite Qmult_1_l. rewrite <- Zle_Qle. lia.
    + apply Qle_shift_div_l; [exact Hpos |].
      rewrite Qmult_0_l, weighted_fold. fold B R G D. lra.
    + apply Qle_shift_div_r; [exact Hpos |].
      rewrite Qmult_1_l, weighted_fold. fold B R G D. lra.
Qed.

(* ===================================================================== *)
(** ** Further results: the review *)
(* ===================================================================== *)

Section MoreReviewResults.
Variable chess : ChessJs.
Variable stockfish : Stockfish.
Variable openings : option (gmap string string).

Lemma judge_never_brilliant (book : gmap string string) (mp : option Move)
    (bm bmSan : string) (top : Continuation) (sfEval : StockfishEval) (d : Z)
    (fb : MoveFeedback) (descr : string) :
  judge book mp bm bmSan top sfEval d = Normal (fb, descr) -> fb <> Brilliant.
Proof.
  unfold judge. intros H.
  destruct (bookEntry book mp); [inversion H; discriminate |].
  destruct (match mp with Some _ => _ | None => _ end);
    [inversion H; discriminate |].
  destruct (if hasMate (score top) then _ else _) as [[|]|]; try discriminate;
    [inversion H; discriminate |].
  destruct (d >=? _)%Z; [inversion H; discriminate |].
  destruct (d >=? _)%Z; [inversion H; discriminate |].
  destruct (continuations sfEval !! 0); inversion H. discriminate.
Qed.

Lemma bookEntry_Some (book : gmap string string) (mp : option Move) :
  (exists name, bookEntry book mp = Some name)
  <-> exists m name,
        mp = Some m /\ book !! after m = Some name /\ name <> "".
Proof.
  unfold bookEntry. split.
  - intros [name H]. destruct mp as [m|]; [| discriminate].
    destruct (book !! after m) as [nm|] eqn:E; [| discriminate].
    destruct (String.eqb nm "") eqn:En; [discriminate |].
    exists m, nm. apply String.eqb_neq in En. auto.
  - intros (m & name & -> & -> & Hne).
    apply String.eqb_neq in Hne. rewrite Hne. eauto.
Qed.

Lemma judge_book_iff (book : gmap string string) (mp : option Move)
    (bm bmSan : string) (top : Continuation) (sfEval : StockfishEval) (d : Z)
    (fb : MoveFeedback) (descr : string) :
  judge book mp bm bmSan top sfEval d = Normal (fb, descr) ->
  (fb = Book <-> exists name, bookEntry book mp = Some name).
Proof.
  unfold judge. intros H.
  destruct (bookEntry book mp) as [name|].
  - inversion H; subst. split; eauto.
  - split; [| intros [? ?]; discriminate]. intros ->. exfalso.
    destruct (match mp with Some _ => _ | None => _ end); [discriminate |].
    destruct (if hasMate (score top) then _ else _) as [[|]|];
      [discriminate | | discriminate].
    destruct (d >=? _)%Z; [discriminate |].
    destruct (d >=? _)%Z; [discriminate |].
    destruct (continuations sfEval !! 0); discriminate.
Qed.

Lemma judge_best_iff (book : gmap string string) (mp : option Move)
    (bm bmSan : string) (top : Continuation) (sfEval : StockfishEval) (d : Z)
    (fb : MoveFeedback) (descr : string) :
  judge book mp bm bmSan top sfEval d = Normal (fb, descr) ->
  (fb = Best <->
   bookEntry book mp = None
   /\ exists m, mp = Some m /\ (from m ++ to m)%string = bm).
Proof.
  unfold judge. intros H.
  destruct (bookEntry book mp) as [name|].
  - inversion H; subst. split; [discriminate | intros [? _]; discriminate].
  - destruct mp as [m|].
    + destruct (String.eqb (from m ++ to m) bm) eqn:E.
      * inversion H; subst. apply String.eqb_eq in E.
        split; [| reflexivity]. intros _. split; [reflexivity |]. eauto.
      * apply String.eqb_neq in E.
        split; [| intros [_ (m' & Hm & Hb)]; inversion Hm; subst; contradiction].
        intros ->. exfalso.
        destruct (if hasMate (score top) then _ else _) as [[|]|];
          [discriminate | | discriminate].
        destruct (d >=? _)%Z; [discriminate |].
        destruct (d >=? _)%Z; [discriminate |].
        destruct (continuations sfEval !! 0); discriminate.
    + split; [| intros [_ (m' & Hm & _)]; discriminate].
      intros ->. exfalso.
      destruct (if hasMate (score top) then _ else _) as [[|]|];
        [discriminate | | discriminate].
      destruct (d >=? _)%Z; [discriminate |].
      destruct (d >=? _)%Z; [discriminate |].
      destruct (continuations sfEval !! 0); discriminate.
Qed.

(** Everything an annotation that was computed went through. *)
Lemma annotate_judged_full (book : gmap string string) (timeline : list BoardState)
    (evaluations : list EvaluationRecord) (i : nat) (a : Annotation) :
  annotate chess book timeline evaluations i = Normal a ->
  exists prev cur top bm ps played,
    evaluations !! (i - 1) = Some prev
    /\ evaluations !! i = Some cur
    /\ continuations (rec_eval prev) !! 0 = Some top
    /\ continuation top !! 0 = Some bm
    /\ timeline !! (i - 1) = Some ps
    /\ chess_move chess (fen ps) (slice 0 2 bm) (slice 2 4 bm)
         (Some (slice 4 5 bm)) = Some played
    /\ judge book (match timeline !! i with Some s => move s | None => None end)
         bm (san played) top (rec_eval cur) (rec_deltaScore cur)
       = Normal (feedback a, description a)
    /\ evaluation a = rec_eval cur
    /\ deltaScore a = rec_deltaScore cur
    /\ bestMove a = getBestMove (rec_eval cur).
Proof.
  unfold annotate. intros H.
  destruct (evaluations !! i) as [cur|]; [| discriminate].
  destruct (evaluations !! (i - 1)) as [prev|]; [| discriminate].
  destruct (continuations (rec_eval prev) !! 0) as [top|] eqn:Htop; [| discriminate].
  destruct (continuation top !! 0) as [bm|] eqn:Hbm; [| discriminate].
  destruct (timeline !! (i - 1)) as [ps|] eqn:Hps; [| discriminate].
  destruct (chess_move chess (fen ps) _ _ _) as [pl|] eqn:Hpl; [| discriminate].
  destruct (judge _ _ _ _ _ _ _) as [[fb descr]|] eqn:Hj; [| discriminate].
  inversion H; subst. simpl.
  exists prev, cur, top, bm, ps, pl. repeat split; assumption.
Qed.

(** What a review that returns did at an index [i >= 1], in full. *)
Lemma review_step_full (timeline : list BoardState) (r r' : GameReviewer)
    (i : nat) :
  newGameReviewer timeline = Normal r ->
  beginGameReview chess stockfish openings r = (Normal tt, r') ->
  1 <= i < length timeline ->
  exists sp sc ep ec a book top bm played,
    timeline !! (i - 1) = Some sp /\ timeline !! i = Some sc
    /\ getEvaluationToDepth stockfish (fen sp) 10 = Some ep
    /\ getEvaluationToDepth stockfish (fen sc) 10 = Some ec
    /\ getAnnotationAt i (_timelineAnnotations r') = Some a
    /\ openings = Some book
    /\ continuations ep !! 0 = Some top
    /\ continuation top !! 0 = Some bm
    /\ chess_move chess (fen sp) (slice 0 2 bm) (slice 2 4 bm)
         (Some (slice 4 5 bm)) = Some played
    /\ judge book (move sc) bm (san played) top ec (deltaScore a)
       = Normal (feedback a, description a)
    /\ evaluation a = ec
    /\ bestMove a = getBestMove ec.
Proof.
  intros Hnew Hrun Hi.
  destruct (review_walk chess stockfish openings timeline r r' Hnew Hrun)
    as (first & book & evs & _ & Hbook & Hrec & _ & _ & _ & _ & Hann).
  destruct (Hann i Hi) as (a & Ha & Hget).
  apply annotate_judged_full in Ha.
  destruct Ha as (prev & cur & top & bm & ps & pl & Hprev & Hcur & Htop & Hbm
                  & Hps & Hpl & Hj & Hev & Hd & Hbest).
  destruct (lookup_lt_is_Some_2 timeline i) as [sc Hsc]; [lia |].
  rewrite Hsc in Hj.
  destruct i as [|j]; [lia |]. simpl in *. rewrite Nat.sub_0_r in *.
  destruct (records_for_adjacent chess stockfish _ _ _ _ j ps sc Hrec Hps Hsc)
    as (rp & rc & ap & ac & Hrp & Hrc & Hep & Hec & _).
  rewrite Hprev in Hrp. inversion Hrp; subst rp.
  rewrite Hcur in Hrc. inversion Hrc; subst rc.
  exists ps, sc, (rec_eval prev), (rec_eval cur), a, book, top, bm, pl.
  rewrite Hd. repeat split; assumption.
Qed.

(** X13.  After a review that returns, the store has one slot per position
    of the timeline; the slot of index 0 is empty, every index from 1 to
    the last holds an annotation, and nothing is read past the end. *)
Theorem review_fills_all_but_first (timeline : list BoardState)
    (r r' : GameReviewer) :
  newGameReviewer timeline = Normal r ->
  beginGameReview chess stockfish openings r = (Normal tt, r') ->
  exists store,
    getAnnotations r' = Some store
    /\ annotations_length store = length timeline
    /\ getAnnotationAt 0 store = None
    /\ (forall i, 1 <= i < length timeline ->
          exists a, getAnnotationAt i store = Some a)
    /\ (forall i, length timeline <= i -> getAnnotationAt i store = None).
Proof.
  intros Hnew Hrun.
  destruct (review_walk chess stockfish openings timeline r r' Hnew Hrun)
    as (first & book & evs & _ & _ & _ & Hlen & H0 & Hc & _ & Hann).
  exists (_timelineAnnotations r').
  unfold getAnnotations. rewrite Hc. simpl.
  split; [reflexivity |]. split; [exact Hlen |]. split; [| split].
  - unfold getAnnotationAt. rewrite H0. reflexivity.
  - intros i Hi. destruct (Hann i Hi) as (a & _ & Ha). exists a. exact Ha.
  - intros i Hi. unfold getAnnotationAt.
    rewrite lookup_ge_None_2 by lia. reflexivity.
Qed.

(** X14.  A review never gives the label Brilliant: after a review that
    returns no slot holds it. *)
Theorem review_never_brilliant (timeline : list BoardState) (r r' : GameReviewer) :
  newGameReviewer timeline = Normal r ->
  beginGameReview chess stockfish openings r = (Normal tt, r') ->
  (forall i a, getAnnotationAt i (_timelineAnnotations r') = Some a ->
     feedback a <> Brilliant)
  /\ numMovesOfType Brilliant (_timelineAnnotations r') = 0.
Proof.
  intros Hnew Hrun.
  assert (Hall : forall i a,
            getAnnotationAt i (_timelineAnnotations r') = Some a ->
            feedback a <> Brilliant).
  { intros i a Ha.
    destruct (review_walk chess stockfish openings timeline r r' Hnew Hrun)
      as (first & book0 & evs & _ & _ & _ & Hlen & Hzero & _ & _ & _).
    assert (H0 : getAnnotationAt 0 (_timelineAnnotations r') = None)
      by (unfold getAnnotationAt; rewrite Hzero; reflexivity).
    destruct (Nat.lt_ge_cases i (length timeline)) as [Hlt | Hge].
    2: { unfold getAnnotationAt in Ha.
         rewrite lookup_ge_None_2 in Ha by lia. discriminate. }
    destruct i as [|j]; [rewrite H0 in Ha; discriminate |].
    destruct (review_step_full timeline r r' (S j) Hnew Hrun)
      as (sp & sc & ep & ec & a' & book & top & bm & pl & _ & _ & _ & _ & Ha'
          & _ & _ & _ & _ & Hj & _); [lia |].
    rewrite Ha in Ha'. inversion Ha'; subst a'.
    eapply judge_never_brilliant, Hj. }
  split; [exact Hall |].
  rewrite numMovesOfType_filter.
  assert (Hl : forall l : list (option Annotation),
            (forall i a, l !! i = Some (Some a) -> feedback a <> Brilliant) ->
            length (List.filter (hasLabel Brilliant) l) = 0).
  { induction l as [|x l IH]; intros H; [reflexivity |]. simpl.
    assert (Hx : hasLabel Brilliant x = false).
    { destruct x as [a|]; [| reflexivity]. simpl.
      pose proof (H 0 a eq_refl) as Hne.
      destruct (feedback a); try reflexivity. congruence. }
    rewrite Hx. apply IH. intros i a Hi. apply (H (S i) a). exact Hi. }
  apply Hl. intros i a Hi. apply (Hall i a).
  unfold getAnnotationAt. rewrite Hi. reflexivity.
Qed.

(** X15.  A review runs once: after a review that returns, every further
    call of [beginGameReview] throws "Game review already completed." and
    changes nothing, so the annotations stay retrievable. *)
Theorem completed_review_refuses_rerun (timeline : list BoardState)
    (r r' : GameReviewer) :
  newGameReviewer timeline = Normal r ->
  beginGameReview chess stockfish openings r = (Normal tt, r') ->
  isCompleted r' = true /\ isBusy r' = false
  /\ beginGameReview chess stockfish openings r'
     = (Throw (Error "Game review already completed."), r')
  /\ getAnnotations r' = Some (_timelineAnnotations r').
Proof.
  intros Hnew Hrun.
  destruct (review_walk chess stockfish openings timeline r r' Hnew Hrun)
    as (first & book & evs & _ & _ & _ & _ & _ & Hc & Hb & _).
  unfold isCompleted, isBusy, getAnnotations, beginGameReview.
  rewrite Hc, Hb. repeat split.
Qed.

(** X16.  The Book rule comes first: the move into position [i] is
    labelled Book exactly when its state carries a move record and the
    opening book maps the FEN after that move to a non-empty name, whatever
    the engine says. *)
Theorem book_rule (timeline : list BoardState) (r r' : GameReviewer) (i : nat) :
  newGameReviewer timeline = Normal r ->
  beginGameReview chess stockfish openings r = (Normal tt, r') ->
  1 <= i < length timeline ->
  exists sc a book,
    timeline !! i = Some sc
    /\ openings = Some book
    /\ getAnnotationAt i (_timelineAnnotations r') = Some a
    /\ (feedback a = Book <->
        exists m name,
          move sc = Some m /\ book !! after m = Some name /\ name <> "").
Proof.
  intros Hnew Hrun Hi.
  destruct (review_step_full timeline r r' i Hnew Hrun Hi)
    as (sp & sc & ep & ec & a & book & top & bm & pl & _ & Hsc & _ & _ & Ha
        & Hbook & _ & _ & _ & Hj & _).
  exists sc, a, book.
  split; [exact Hsc |]. split; [exact Hbook |]. split; [exact Ha |].
  rewrite (judge_book_iff _ _ _ _ _ _ _ _ _ Hj). apply bookEntry_Some.
Qed.

(** X17.  The Best rule comes second: the move into position [i] is
    labelled Best exactly when the Book rule does not match and the origin
    and destination squares of the move record, put together, are the first
    move of the engine's top line for position [i - 1]. *)
Theorem best_rule (timeline : list BoardState) (r r' : GameReviewer) (i : nat) :
  newGameReviewer timeline = Normal r ->
  beginGameReview chess stockfish openings r = (Normal tt, r') ->
  1 <= i < length timeline ->
  exists sp sc ep a book,
    timeline !! (i - 1) = Some sp /\ timeline !! i = Some sc
    /\ getEvaluationToDepth stockfish (fen sp) 10 = Some ep
    /\ openings = Some book
    /\ getAnnotationAt i (_timelineAnnotations r') = Some a
    /\ (feedback a = Best <->
        bookEntry book (move sc) = None
        /\ exists m,
             move sc = Some m
             /\ getBestMove ep = Some (from m ++ to m)%string).
Proof.
  intros Hnew Hrun Hi.
  destruct (review_step_full timeline r r' i Hnew Hrun Hi)
    as (sp & sc & ep & ec & a & book & top & bm & pl & Hsp & Hsc & Hep & _ & Ha
        & Hbook & Htop & Hbm & _ & Hj & _).
  exists sp, sc, ep, a, book.
  split; [exact Hsp |]. split; [exact Hsc |]. split; [exact Hep |].
  split; [exact Hbook |]. split; [exact Ha |].
  rewrite (judge_best_iff _ _ _ _ _ _ _ _ _ Hj).
  unfold getBestMove. rewrite Htop, Hbm.
  split; intros [Hb (m & Hm & E)]; (split; [exact Hb |]); exists m;
    (split; [exact Hm |]); congruence.
Qed.

(** X18.  The last two rules: a move whose label is not Book, Best or Miss
    is Dubious exactly when its delta score is below -50 and at least -200,
    and Blunder exactly when it is below -200. *)
Theorem dubious_and_blunder_rules (timeline : list BoardState)
    (r r' : GameReviewer) (i : nat) :
  newGameReviewer timeline = Normal r ->
  beginGameReview chess stockfish openings r = (Normal tt, r') ->
  1 <= i < length timeline ->
  exists a,
    getAnnotationAt i (_timelineAnnotations r') = Some a
    /\ (feedback a <> Book -> feedback a <> Best -> feedback a <> Miss ->
        (feedback a = Dubious <-> (-200 <= deltaScore a < -50)%Z)
        /\ (feedback a = Blunder <-> (deltaScore a < -200)%Z)).
Proof.
  intros Hnew Hrun Hi.
  destruct (review_step chess stockfish openings timeline r r' i Hnew Hrun Hi)
    as (sp & sc & ep & ec & a & top & book & mp & bm & bmSan
        & _ & _ & _ & _ & Hget & _ & Hj).
  exists a. split; [exact Hget |].
  intros NB NBe NM.
  destruct (judge_by_delta _ _ _ _ _ _ _ _ _ Hj NB NBe NM)
    as [[E H] | [[E H] | [E H]]]; rewrite E;
    unfold GOOD_CP_LOSS_THRESHOLD, BLUNDER_CP_LOSS_THRESHOLD in *;
    split; split; intros; try discriminate; try lia; reflexivity.
Qed.

(** X19.  The field [bestMove] of the annotation of index [i] is the first
    move of the engine's top line for position [i] itself, the position
    after the move (or null when that evaluation has no line). *)
Theorem annotation_bestMove (timeline : list BoardState) (r r' : GameReviewer)
    (i : nat) :
  newGameReviewer timeline = Normal r ->
  beginGameReview chess stockfish openings r = (Normal tt, r') ->
  1 <= i < length timeline ->
  exists sc ec a,
    timeline !! i = Some sc
    /\ getEvaluationToDepth stockfish (fen sc) 10 = Some ec
    /\ getAnnotationAt i (_timelineAnnotations r') = Some a
    /\ evaluation a = ec
    /\ bestMove a = getBestMove ec.
Proof.
  intros Hnew Hrun Hi.
  destruct (review_step_full timeline r r' i Hnew Hrun Hi)
    as (sp & sc & ep & ec & a & book & top & bm & pl & _ & Hsc & _ & Hec & Ha
        & _ & _ & _ & _ & _ & Hev & Hbest).
  exists sc, ec, a. repeat split; assumption.
Qed.

(** X20.  A review returns only if the engine gave, for every position but
    the last, a top line whose first move chess.js accepts in that
    position, and the opening book was loaded. *)
Theorem review_needs_legal_top_moves (timeline : list BoardState)
    (r r' : GameReviewer) (i : nat) :
  newGameReviewer timeline = Normal r ->
  beginGameReview chess stockfish openings r = (Normal tt, r') ->
  i + 1 < length timeline ->
  exists sp ep bm played book,
    timeline !! i = Some sp
    /\ getEvaluationToDepth stockfish (fen sp) 10 = Some ep
    /\ getBestMove ep = Some bm
    /\ chess_move chess (fen sp) (slice 0 2 bm) (slice 2 4 bm)
         (Some (slice 4 5 bm)) = Some played
    /\ openings = Some book.
Proof.
  intros Hnew Hrun Hi.
  destruct (review_step_full timeline r r' (S i) Hnew Hrun)
    as (sp & sc & ep & ec & a & book & top & bm & pl & Hsp & _ & Hep & _ & _
        & Hbook & Htop & Hbm & Hpl & _); [lia |].
  simpl in Hsp. rewrite Nat.sub_0_r in Hsp.
  exists sp, ep, bm, pl, book.
  unfold getBestMove. rewrite Htop. repeat split; assumption.
Qed.

End MoreReviewResults.

Section ReviewProgress.
Variable chess : ChessJs.
Variable stockfish : Stockfish.
Variable openings : option (gmap string string).

(** A run of the evaluation loop that returns after at least one state
    leaves the progress value at the count of states visited over [n]. *)
Lemma getEvaluations_loop_progress (rest : list BoardState) :
  forall n i lastState lastScore evaluations r evaluations' r',
    rest <> [] ->
    getEvaluations_loop chess stockfish n i rest lastState lastScore
      evaluations r = (Normal evaluations', r') ->
    _progress r'
    = (inject_Z (Z.of_nat (i + length rest)) / inject_Z (Z.of_nat n))%Q.
Proof.
  induction rest as [|s rest IH]; intros n i ls lsc evs r evs' r' Hne;
    [congruence |].
  simpl. unfold bind at 1.
  destruct (getEvaluationToDepth stockfish (fen s) 10) as [e|]; simpl;
    [| unfold throw; discriminate].
  unfold bind at 1, lift. simpl.
  destruct (evalAsAbsoluteScore e) as [sc|ex]; simpl; [| discriminate].
  unfold bind at 1. simpl.
  destruct rest as [|s2 rest].
  - simpl. unfold ret. intros H. inversion H; subst. reflexivity.
  - intros H. apply IH in H; [| discriminate].
    rewrite H. do 3 f_equal. simpl. lia.
Qed.

(** Whether it returns or throws, the annotation loop leaves the progress
    value alone. *)
Lemma annotate_loop_progress (book : gmap string string)
    (evaluations : list EvaluationRecord) (indices : list nat) :
  forall r,
    _progress (snd (annotate_loop chess book evaluations indices r))
    = _progress r.
Proof.
  induction indices as [|i indices IH]; intros r; simpl; [reflexivity |].
  unfold bind at 1.
  destruct (annotate chess book (_timeline r) evaluations i) as [an|ex];
    [| reflexivity].
  unfold bind at 1. simpl. rewrite IH. reflexivity.
Qed.

(** X21.  When a review returns, the progress value is the number of
    positions over itself, that is 1. *)
Theorem progress_complete (timeline : list BoardState) (r r' : GameReviewer) :
  newGameReviewer timeline = Normal r ->
  beginGameReview chess stockfish openings r = (Normal tt, r') ->
  getProgress r'
  = (inject_Z (Z.of_nat (length timeline))
     / inject_Z (Z.of_nat (length timeline)))%Q
  /\ (getProgress r' == 1)%Q.
Proof.
  intros Hnew Hrun.
  apply newGameReviewer_normal in Hnew. destruct Hnew as [Hne ->].
  apply beginGameReview_returns in Hrun.
  destruct Hrun as (evs & book & r1 & r2 & _ & _ & Hev & _ & Hann & ->).
  assert (H : getProgress
                (snd (set_completed true (snd (set_busy false r2))))
              = (inject_Z (Z.of_nat (length timeline))
                 / inject_Z (Z.of_nat (length timeline)))%Q).
  { unfold getProgress. simpl.
    pose proof (annotate_loop_progress book evs (seq 1 (length evs - 1)) r1)
      as Hp.
    rewrite Hann in Hp. simpl in Hp. rewrite Hp.
    unfold _getEvaluations in Hev. simpl in Hev.
    destruct timeline as [|first tl]; [congruence |].
    apply getEvaluations_loop_progress in Hev; [| discriminate].
    exact Hev. }
  split; [exact H |]. rewrite H.
  apply Qmult_inv_r.
  apply Qnot_eq_sym, Qlt_not_eq.
  change 0%Q with (inject_Z 0). rewrite <- Zlt_Qlt.
  destruct timeline; [congruence | simpl; lia].
Qed.

(** X22.  After a review that returns, [computeAccuracy] is defined, at
    least 0 and strictly below 1: its divisor counts the empty slot of the
    starting position. *)
Theorem accuracy_below_one (timeline : list BoardState) (r r' : GameReviewer) :
  newGameReviewer timeline = Normal r ->
  beginGameReview chess stockfish openings r = (Normal tt, r') ->
  exists store p,
    getAnnotations r' = Some store
    /\ computeAccuracy store = Some p
    /\ (0 <= p)%Q /\ (p < 1)%Q.
Proof.
  intros Hnew Hrun.
  destruct (accuracy_of_review chess stockfish openings timeline r r' Hnew Hrun)
    as (store & Hs & Hlen & Hcount & Hacc).
  exists store. eexists. split; [exact Hs |]. split; [exact Hacc |].
  destruct (label_counts (_annotations store)) as (H1 & H2 & H3).
  fold (annotatedMoves store) in H1, H2. fold (positiveMoves store) in H3.
  assert (Hpos : (0 < inject_Z (Z.of_nat (annotatedMoves store + 1)))%Q).
  { change 0%Q with (inject_Z 0). rewrite <- Zlt_Qlt. lia. }
  split.
  - apply Qle_shift_div_l; [exact Hpos |].
    rewrite Qmult_0_l. change 0%Q with (inject_Z 0). rewrite <- Zle_Qle. lia.
  - apply Qlt_shift_div_r; [exact Hpos |].
    rewrite Qmult_1_l. rewrite <- Zlt_Qlt. lia.
Qed.

End ReviewProgress.

(** The reviews of the examples, as hypotheses of the results above. *)
Lemma review_e4_e5_returns :
  beginGameReview excerpt_chess engine_e4_e5 (Some ∅) (freshReviewer timeline_e4_e5)
  = (Normal tt, reviewed_e4_e5).
Proof. reflexivity. Defined.

Lemma review_e4_e5_index : 1 <= 1 < length timeline_e4_e5.
Proof. simpl. lia. Defined.

Lemma review_fills_all_but_first_witness :
  newGameReviewer timeline_e4_e5 = Normal (freshReviewer timeline_e4_e5)
  /\ beginGameReview excerpt_chess engine_e4_e5 (Some ∅)
       (freshReviewer timeline_e4_e5) = (Normal tt, reviewed_e4_e5)
  /\ exists store,
       getAnnotations reviewed_e4_e5 = Some store
       /\ annotations_length store = length timeline_e4_e5.
Proof.
  split; [reflexivity |]. split; [exact review_e4_e5_returns |].
  destruct (review_fills_all_but_first excerpt_chess engine_e4_e5 (Some ∅)
              timeline_e4_e5 (freshReviewer timeline_e4_e5) reviewed_e4_e5
              eq_refl review_e4_e5_returns) as (store & Hs & Hl & _).
  exists store. split; assumption.
Defined.

Lemma review_never_brilliant_witness :
  newGameReviewer timeline_e4_e5 = Normal (freshReviewer timeline_e4_e5)
  /\ beginGameReview excerpt_chess engine_e4_e5 (Some ∅)
       (freshReviewer timeline_e4_e5) = (Normal tt, reviewed_e4_e5)
  /\ numMovesOfType Brilliant (_timelineAnnotations reviewed_e4_e5) = 0.
Proof.
  split; [reflexivity |]. split; [exact review_e4_e5_returns |].
  exact (proj2 (review_never_brilliant excerpt_chess engine_e4_e5 (Some ∅)
                  timeline_e4_e5 (freshReviewer timeline_e4_e5) reviewed_e4_e5
                  eq_refl review_e4_e5_returns)).
Defined.

Lemma completed_review_refuses_rerun_witness :
  newGameReviewer timeline_e4_e5 = Normal (freshReviewer timeline_e4_e5)
  /\ beginGameReview excerpt_chess engine_e4_e5 (Some ∅)
       (freshReviewer timeline_e4_e5) = (Normal tt, reviewed_e4_e5)
  /\ beginGameReview excerpt_chess engine_e4_e5 (Some ∅) reviewed_e4_e5
     = (Throw (Error "Game review already completed."), reviewed_e4_e5).
Proof.
  split; [reflexivity |]. split; [exact review_e4_e5_returns |].
  exact (proj1 (proj2 (proj2
           (completed_review_refuses_rerun excerpt_chess engine_e4_e5 (Some ∅)
              timeline_e4_e5 (freshReviewer timeline_e4_e5) reviewed_e4_e5
              eq_refl review_e4_e5_returns)))).
Defined.

(** With the one-entry book and the engine that agrees with the game, the
    first move is in the book and is the engine's top move: it is labelled
    Book; the second is labelled Best. *)
Lemma review_e4_e5_book_returns :
  beginGameReview excerpt_chess engine_e4_e5_best (Some book_e4)
    (freshReviewer timeline_e4_e5)
  = (Normal tt, reviewed_e4_e5_book).
Proof. vm_compute. reflexivity. Defined.

Lemma review_e4_e5_index2 : 1 <= 2 < length timeline_e4_e5.
Proof. simpl. lia. Defined.

Lemma book_rule_witness :
  newGameReviewer timeline_e4_e5 = Normal (freshReviewer timeline_e4_e5)
  /\ beginGameReview excerpt_chess engine_e4_e5_best (Some book_e4)
       (freshReviewer timeline_e4_e5) = (Normal tt, reviewed_e4_e5_book)
  /\ 1 <= 1 < length timeline_e4_e5
  /\ exists a,
       getAnnotationAt 1 (_timelineAnnotations reviewed_e4_e5_book) = Some a
       /\ feedback a = Book.
Proof.
  split; [reflexivity |]. split; [exact review_e4_e5_book_returns |].
  split; [exact review_e4_e5_index |].
  destruct (book_rule excerpt_chess engine_e4_e5_best (Some book_e4)
              timeline_e4_e5 (freshReviewer timeline_e4_e5) reviewed_e4_e5_book 1
              eq_refl review_e4_e5_book_returns review_e4_e5_index)
    as (sc & a & book & Hsc & Hbook & Ha & Hiff).
  exists a. split; [exact Ha |].
  simpl in Hsc. injection Hsc as <-. injection Hbook as <-.
  apply Hiff. exists move_e4, "King's Pawn Game".
  split; [reflexivity |]. split; [vm_compute; reflexivity | discriminate].
Defined.

Lemma best_rule_witness :
  newGameReviewer timeline_e4_e5 = Normal (freshReviewer timeline_e4_e5)
  /\ beginGameReview excerpt_chess engine_e4_e5_best (Some book_e4)
       (freshReviewer timeline_e4_e5) = (Normal tt, reviewed_e4_e5_book)
  /\ 1 <= 2 < length timeline_e4_e5
  /\ exists a,
       getAnnotationAt 2 (_timelineAnnotations reviewed_e4_e5_book) = Some a
       /\ feedback a = Best.
Proof.
  split; [reflexivity |]. split; [exact review_e4_e5_book_returns |].
  split; [exact review_e4_e5_index2 |].
  destruct (best_rule excerpt_chess engine_e4_e5_best (Some book_e4)
              timeline_e4_e5 (freshReviewer timeline_e4_e5) reviewed_e4_e5_book 2
              eq_refl review_e4_e5_book_returns review_e4_e5_index2)
    as (sp & sc & ep & a & book & Hsp & Hsc & Hep & Hbook & Ha & Hiff).
  exists a. split; [exact Ha |].
  simpl in Hsp, Hsc. injection Hsp as <-. injection Hsc as <-.
  simpl in Hep. injection Hep as <-. injection Hbook as <-.
  apply Hiff. split; [vm_compute; reflexivity |].
  exists move_e5. split; reflexivity.
Defined.

Lemma dubious_and_blunder_rules_witness :
  newGameReviewer timeline_e4_e5 = Normal (freshReviewer timeline_e4_e5)
  /\ beginGameReview excerpt_chess engine_e4_e5 (Some ∅)
       (freshReviewer timeline_e4_e5) = (Normal tt, reviewed_e4_e5)
  /\ 1 <= 1 < length timeline_e4_e5
  /\ exists a,
       getAnnotationAt 1 (_timelineAnnotations reviewed_e4_e5) = Some a.
Proof.
  split; [reflexivity |]. split; [exact review_e4_e5_returns |].
  split; [exact review_e4_e5_index |].
  destruct (dubious_and_blunder_rules excerpt_chess engine_e4_e5 (Some ∅)
              timeline_e4_e5 (freshReviewer timeline_e4_e5) reviewed_e4_e5 1
              eq_refl review_e4_e5_returns review_e4_e5_index)
    as (a & Ha & _).
  exists a. exact Ha.
Defined.

Lemma annotation_bestMove_witness :
  newGameReviewer timeline_e4_e5 = Normal (freshReviewer timeline_e4_e5)
  /\ beginGameReview excerpt_chess engine_e4_e5 (Some ∅)
       (freshReviewer timeline_e4_e5) = (Normal tt, reviewed_e4_e5)
  /\ 1 <= 1 < length timeline_e4_e5
  /\ exists a,
       getAnnotationAt 1 (_timelineAnnotations reviewed_e4_e5) = Some a
       /\ bestMove a = getBestMove (evaluation a).
Proof.
  split; [reflexivity |]. split; [exact review_e4_e5_returns |].
  split; [exact review_e4_e5_index |].
  destruct (annotation_bestMove excerpt_chess engine_e4_e5 (Some ∅)
              timeline_e4_e5 (freshReviewer timeline_e4_e5) reviewed_e4_e5 1
              eq_refl review_e4_e5_returns review_e4_e5_index)
    as (sc & ec & a & _ & _ & Ha & Hev & Hb).
  exists a. split; [exact Ha |]. rewrite Hev. exact Hb.
Defined.

Lemma review_needs_legal_top_moves_witness :
  newGameReviewer timeline_e4_e5 = Normal (freshReviewer timeline_e4_e5)
  /\ beginGameReview excerpt_chess engine_e4_e5 (Some ∅)
       (freshReviewer timeline_e4_e5) = (Normal tt, reviewed_e4_e5)
  /\ 0 + 1 < length timeline_e4_e5
  /\ exists ep bm,
       getEvaluationToDepth engine_e4_e5 INITIAL_BOARD_FEN 10 = Some ep
       /\ getBestMove ep = Some bm.
Proof.
  assert (H : 0 + 1 < length timeline_e4_e5) by (simpl; lia).
  split; [reflexivity |]. split; [exact review_e4_e5_returns |].
  split; [exact H |].
  destruct (review_needs_legal_top_moves excerpt_chess engine_e4_e5 (Some ∅)
              timeline_e4_e5 (freshReviewer timeline_e4_e5) reviewed_e4_e5 0
              eq_refl review_e4_e5_returns H)
    as (sp & ep & bm & pl & book & Hsp & Hep & Hbm & _).
  simpl in Hsp. injection Hsp as <-.
  exists ep, bm. split; assumption.
Defined.

Lemma progress_complete_witness :
  newGameReviewer timeline_e4_e5 = Normal (freshReviewer timeline_e4_e5)
  /\ beginGameReview excerpt_chess engine_e4_e5 (Some ∅)
       (freshReviewer timeline_e4_e5) = (Normal tt, reviewed_e4_e5)
  /\ (getProgress reviewed_e4_e5 == 1)%Q.
Proof.
  split; [reflexivity |]. split; [exact review_e4_e5_returns |].
  exact (proj2 (progress_complete excerpt_chess engine_e4_e5 (Some ∅)
                  timeline_e4_e5 (freshReviewer timeline_e4_e5) reviewed_e4_e5
                  eq_refl review_e4_e5_returns)).
Defined.

Lemma accuracy_below_one_witness :
  newGameReviewer timeline_e4_e5 = Normal (freshReviewer timeline_e4_e5)
  /\ beginGameReview excerpt_chess engine_e4_e5 (Some ∅)
       (freshReviewer timeline_e4_e5) = (Normal tt, reviewed_e4_e5)
  /\ exists store p,
       getAnnotations reviewed_e4_e5 = Some store
       /\ computeAccuracy store = Some p
       /\ (0 <= p)%Q /\ (p < 1)%Q.
Proof.
  split; [reflexivity |]. split; [exact review_e4_e5_returns |].
  exact (accuracy_below_one excerpt_chess engine_e4_e5 (Some ∅)
           timeline_e4_e5 (freshReviewer timeline_e4_e5) reviewed_e4_e5
           eq_refl review_e4_e5_returns).
Defined.

(* ===================================================================== *)
(** ** Further results: drawing helpers, ranges, modals *)
(* ===================================================================== *)

Lemma succ_mod_2 (r : nat) : (r + 1) mod 2 = 1 - r mod 2.
Proof.
  pose proof (Nat.div_mod_eq r 2) as H.
  pose proof (Nat.mod_upper_bound r 2) as Hb.
  destruct (r mod 2) as [|[|k]] eqn:E; [| | lia].
  - symmetry. apply (Nat.mod_unique (r + 1) 2 (r / 2) 1); lia.
  - symmetry. apply (Nat.mod_unique (r + 1) 2 (r / 2 + 1) 0); lia.
Qed.

(** X23.  The squares are coloured as a checkerboard: the square to the
    right in the same row and the square one row down have the other
    colour. *)
Theorem isLightSquare_alternates (i : nat) :
  (i mod 8 < 7 -> isLightSquare (i + 1) = negb (isLightSquare i))
  /\ isLightSquare (i + 8) = negb (isLightSquare i).
Proof.
  unfold isLightSquare.
  pose proof (Nat.div_mod_eq i 8) as H.
  pose proof (Nat.mod_upper_bound i 8) as Hb.
  pose proof (Nat.mod_upper_bound (i / 8) 2) as Hr.
  pose proof (Nat.mod_upper_bound (i mod 8) 2) as Hc.
  split.
  - intros Hlt.
    assert (E1 : (i + 1) mod 8 = i mod 8 + 1)
      by (symmetry; apply (Nat.mod_unique (i + 1) 8 (i / 8)); lia).
    assert (E2 : (i + 1) / 8 = i / 8)
      by (symmetry; apply (Nat.div_unique (i + 1) 8 (i / 8) (i mod 8 + 1)); lia).
    rewrite E1, E2, succ_mod_2.
    destruct ((i mod 8) mod 2) as [|[|k]], ((i / 8) mod 2) as [|[|k']];
      try reflexivity; lia.
  - assert (E1 : (i + 8) mod 8 = i mod 8)
      by (symmetry; apply (Nat.mod_unique (i + 8) 8 (i / 8 + 1)); lia).
    assert (E2 : (i + 8) / 8 = i / 8 + 1)
      by (symmetry; apply (Nat.div_unique (i + 8) 8 (i / 8 + 1) (i mod 8)); lia).
    rewrite E1, E2, succ_mod_2.
    destruct ((i mod 8) mod 2) as [|[|k]], ((i / 8) mod 2) as [|[|k']];
      try reflexivity; lia.
Qed.

(** X24.  The labels on the edge of the board agree with the square names:
    a row label is the rank of the square of the a-file it is drawn on, and
    a column label is the file of the square of the first rank it is drawn
    on.  No other square has a label. *)
Theorem edge_labels_match_squares (i : nat) :
  i < 64 ->
  (forall s, squareRowAnnotation i = Some s ->
     boardIndexToSquare i = ("a" ++ s)%string)
  /\ (forall s, squareColumnAnnotation i = Some s ->
        boardIndexToSquare i = (s ++ "1")%string)
  /\ (squareRowAnnotation i = None <-> i mod 8 <> 0)
  /\ (squareColumnAnnotation i = None <-> i / 8 <> 7).
Proof.
  intros H.
  do 64 (destruct i as [|i];
         [vm_compute;
          repeat split; intros; try discriminate; try congruence;
          match goal with
          | E : Some _ = Some _ |- _ => injection E as <-; reflexivity
          end |]).
  lia.
Qed.

Lemma edge_labels_match_squares_witness :
  56 < 64
  /\ squareRowAnnotation 56 = Some "1"
  /\ boardIndexToSquare 56 = "a1".
Proof.
  assert (H : 56 < 64) by lia.
  split; [exact H |]. split; [reflexivity |].
  exact (proj1 (edge_labels_match_squares 56 H) "1" eq_refl).
Defined.

(** X25.  The feedback icon is drawn only while the cursor is on [main], on
    the destination square of the move that led to the board shown and for
    the annotation at the cursor; so it is drawn on at most one square. *)
Theorem feedback_icon_square (boardState : BoardState) (position : TimelinePosition)
    (annotations : TimelineAnnotations) (i : nat) (path : string) :
  moveFeedbackAnnotationAtSquare boardState position annotations i = Some path ->
  main position = true
  /\ (exists a m,
        getAnnotationAt (index position) annotations = Some a
        /\ move boardState = Some m
        /\ squareToBoardIndex (to m) = Some (Z.of_nat i)
        /\ path = pathForMoveFeedbackIcon (feedback a))
  /\ forall j path',
       moveFeedbackAnnotationAtSquare boardState position annotations j
       = Some path' -> j = i.
Proof.
  unfold moveFeedbackAnnotationAtSquare. intros H.
  destruct (main position); simpl in *; [| discriminate].
  destruct (getAnnotationAt (index position) annotations) as [a|]; [| discriminate].
  destruct (move boardState) as [m|]; [| discriminate].
  destruct (squareToBoardIndex (to m)) as [k|] eqn:Hk; [| discriminate].
  destruct (k =? Z.of_nat i)%Z eqn:E; [| discriminate].
  apply Z.eqb_eq in E. subst k. inversion H; subst.
  split; [reflexivity |]. split.
  - exists a, m. repeat split; try reflexivity; try assumption.
  - intros j path' Hj.
    destruct (Z.of_nat i =? Z.of_nat j)%Z eqn:E; [| discriminate].
    apply Z.eqb_eq in E. lia.
Qed.

Lemma feedback_icon_square_witness :
  moveFeedbackAnnotationAtSquare (mkBoardState FEN_e4 (Some move_e4))
    (mkPosition true 1) (_timelineAnnotations reviewed_e4_e5) 36
  = Some "/resources/assets/reactions/good.png"
  /\ forall j path',
       moveFeedbackAnnotationAtSquare (mkBoardState FEN_e4 (Some move_e4))
         (mkPosition true 1) (_timelineAnnotations reviewed_e4_e5) j
       = Some path' -> j = 36.
Proof.
  assert (H : moveFeedbackAnnotationAtSquare (mkBoardState FEN_e4 (Some move_e4))
                (mkPosition true 1) (_timelineAnnotations reviewed_e4_e5) 36
              = Some "/resources/assets/reactions/good.png") by reflexivity.
  split; [exact H |].
  exact (proj2 (proj2 (feedback_icon_square _ _ _ _ _ H))).
Defined.

(** The loop of [range], one iteration unfolded. *)
Lemma range_loop_step (i : Z) (end_ : Q) (result : list Z) :
  range_loop i end_ result
  = if Qlt_le_dec (inject_Z i) end_
    then range_loop (i + 1) end_ (result ++ [i])
    else result.
Proof.
  rewrite range_loop_equation_1. simpl.
  destruct (Qlt_le_dec (inject_Z i) end_); reflexivity.
Qed.

Lemma range_loop_values (n : nat) :
  forall (i : Z) (end_ : Q) (result : list Z),
    Z.to_nat (Qceiling end_ - i) = n ->
    range_loop i end_ result
    = result ++ List.map (fun k => (i + Z.of_nat k)%Z) (seq 0 n).
Proof.
  induction n as [|n IH]; intros i end_ result Hn;
    rewrite range_loop_step;
    destruct (Qlt_le_dec (inject_Z i) end_) as [Hlt | Hge].
  - exfalso.
    assert ((i < Qceiling end_)%Z); [| lia].
    rewrite Zlt_Qlt. eapply Qlt_le_trans; [exact Hlt | apply Qle_ceiling].
  - simpl. rewrite app_nil_r. reflexivity.
  - rewrite IH by lia. simpl. rewrite <- app_assoc. simpl.
    rewrite Z.add_0_r. do 2 f_equal.
    rewrite <- seq_shift, List.map_map.
    apply List.map_ext. intros k. lia.
  - exfalso.
    assert (Hc : (inject_Z (Qceiling end_ - 1) < end_)%Q) by apply Qceiling_lt.
    assert ((Qceiling end_ - 1 < i)%Z); [| lia].
    rewrite Zlt_Qlt. eapply Qlt_le_trans; [exact Hc | exact Hge].
Qed.

(** X26.  [range(start, end)] from an integer [start] is the list of the
    integers from [start] up to, but not including, [end], in increasing
    order: [ceil(end) - start] of them, none when [end <= start]. *)
Theorem range_values (start : Z) (end_ : Q) :
  range start end_
  = List.map (fun k => (start + Z.of_nat k)%Z)
      (seq 0 (Z.to_nat (Qceiling end_ - start)))
  /\ length (range start end_) = Z.to_nat (Qceiling end_ - start)
  /\ (forall x, x ∈ range start end_
                <-> (start <= x)%Z /\ (inject_Z x < end_)%Q).
Proof.
  unfold range.
  rewrite (range_loop_values _ start end_ [] eq_refl). simpl.
  split; [reflexivity |]. split.
  - rewrite length_map, length_seq. reflexivity.
  - intros x. rewrite list_elem_of_In, in_map_iff. split.
    + intros (k & <- & Hk). apply in_seq in Hk. split; [lia |].
      eapply Qle_lt_trans; [| apply Qceiling_lt].
      rewrite <- Zle_Qle. lia.
    + intros [Hs Hx]. exists (Z.to_nat (x - start)). split; [lia |].
      apply in_seq.
      assert ((x < Qceiling end_)%Z); [| lia].
      rewrite Zlt_Qlt. eapply Qlt_le_trans; [exact Hx | apply Qle_ceiling].
Qed.

Lemma modal_invariant (Component Args : Type)
    (calls : list (ModalManager.Call Component Args)) :
  forall m,
    (ModalManager.modal _ _ m = ModalManager._modal _ _ m
     /\ (ModalManager.modal _ _ m <> None ->
         ModalManager.args _ _ m = ModalManager._args _ _ m
         /\ ModalManager.args _ _ m <> None)) ->
    let m' := fold_left (fun m c => ModalManager.perform Component Args c m)
                calls m in
    ModalManager.modal _ _ m' = ModalManager._modal _ _ m'
    /\ (ModalManager.modal _ _ m' <> None ->
        ModalManager.args _ _ m' = ModalManager._args _ _ m'
        /\ ModalManager.args _ _ m' <> None).
Proof.
  induction calls as [|c calls IH]; intros m Hm; simpl; [exact Hm |].
  apply IH. destruct Hm as [H1 H2].
  destruct c as [component a force|]; simpl.
  - unfold ModalManager.open.
    destruct (match ModalManager._modal _ _ m with
              | Some _ => true | None => false end && negb force);
      [split; assumption |].
    simpl. split; [reflexivity |]. intros _. split; [reflexivity | discriminate].
  - split; [reflexivity |]. intros Hc. congruence.
Qed.

(** Unforced calls of [open] leave a manager that shows a modal as it is. *)
Lemma unforced_opens_ignored (Component Args : Type)
    (later : list (ModalManager.Call Component Args)) :
  forall m,
    ModalManager._modal _ _ m <> None ->
    Forall (fun call => exists component a,
              call = ModalManager.CallOpen _ _ component a false) later ->
    fold_left (fun m c => ModalManager.perform Component Args c m) later m = m.
Proof.
  induction later as [|c later IH]; intros m Hm Hl; simpl; [reflexivity |].
  apply Forall_cons in Hl. destruct Hl as [(component & a & ->) Hl].
  simpl. unfold ModalManager.open.
  destruct (ModalManager._modal _ _ m) eqn:E; [| congruence]. simpl.
  apply IH; [congruence | exact Hl].
Qed.

(** X27.  Through any sequence of calls the store [modal] holds the private
    field [_modal], and while a modal is shown the store [args] holds the
    private field [_args].  A call of [open] that takes effect (no modal is
    shown, or the call is forced) puts its component and its arguments in
    the two stores, replacing whatever arguments were stored before, and
    they stay there through any number of unforced calls of [open], which
    change nothing.  After [close] no modal is shown and the arguments
    stored are kept. *)
Theorem modal_store_mirrors_field (Component Args : Type)
    (calls : list (ModalManager.Call Component Args)) :
  let m := fold_left (fun m c => ModalManager.perform Component Args c m) calls
             (ModalManager.new Component Args) in
  ModalManager.modal _ _ m = ModalManager._modal _ _ m
  /\ (ModalManager.modal _ _ m <> None ->
      ModalManager.args _ _ m = ModalManager._args _ _ m
      /\ ModalManager.args _ _ m <> None)
  /\ (ModalManager.modal _ _ m <> None ->
      forall component a,
        ModalManager.open _ _ component a false m = m)
  /\ (forall component a force later,
        ModalManager.modal _ _ m = None \/ force = true ->
        Forall (fun call => exists component' a',
                  call = ModalManager.CallOpen _ _ component' a' false) later ->
        fold_left (fun m c => ModalManager.perform Component Args c m) later
          (ModalManager.open _ _ component a force m)
        = ModalManager.mkManager _ _ (Some component) (Some component)
            (Some a) (Some a))
  /\ ModalManager.close _ _ m
     = ModalManager.mkManager _ _ None None (ModalManager.args _ _ m)
         (ModalManager._args _ _ m).
Proof.
  simpl.
  destruct (modal_invariant Component Args calls (ModalManager.new Component Args))
    as [H1 H2].
  { simpl. split; [reflexivity |]. intros Hc. congruence. }
  split; [exact H1 |]. split; [exact H2 |]. split; [| split].
  - intros Hopen component a. unfold ModalManager.open.
    rewrite <- H1.
    destruct (ModalManager.modal _ _ _); [reflexivity | congruence].
  - intros component a force later Heff Hlater.
    assert (E : ModalManager.open _ _ component a force
                  (fold_left (fun m c => ModalManager.perform Component Args c m)
                     calls (ModalManager.new Component Args))
                = ModalManager.mkManager _ _ (Some component) (Some component)
                    (Some a) (Some a)).
    { unfold ModalManager.open. rewrite <- H1.
      destruct Heff as [-> | ->]; [reflexivity |].
      rewrite andb_false_r. reflexivity. }
    rewrite E. apply unforced_opens_ignored; [discriminate | exact Hlater].
  - reflexivity.
Qed.

(** A navigation step that leaves the position where it was leaves the
    whole timeline as it was. *)
Lemma previous_same_position (t : BoardTimeline) :
  positionsEqual (fst (previous t)) (getPosition t) = true ->
  snd (previous t) = t.
Proof.
  destruct t as [[m i] mn hy fk].
  unfold previous, previous_state, positionsEqual, getPosition. simpl.
  destruct m; simpl.
  - destruct (0 <? i) eqn:E; [| reflexivity]. simpl.
    apply Nat.ltb_lt in E. intros H. apply Nat.eqb_eq in H. lia.
  - destruct (0 <? i) eqn:E; simpl.
    + apply Nat.ltb_lt in E. intros H. apply Nat.eqb_eq in H. lia.
    + destruct (0 <? length mn); [discriminate | reflexivity].
Qed.

Lemma next_same_position (t : BoardTimeline) :
  positionsEqual (fst (next t)) (getPosition t) = true ->
  snd (next t) = t.
Proof.
  destruct t as [[m i] mn hy fk].
  unfold next, next_state, positionsEqual, getPosition. simpl.
  destruct m; simpl.
  - destruct (Z.of_nat i <? Z.of_nat (length mn) - 1)%Z; [| reflexivity]. simpl.
    intros H. apply Nat.eqb_eq in H. lia.
  - destruct (Z.of_nat i <? Z.of_nat (length hy) - 1)%Z; [| reflexivity]. simpl.
    intros H. apply Nat.eqb_eq in H. lia.
Qed.

Lemma jumpToStart_same_position (t : BoardTimeline) :
  positionsEqual (fst (jumpToStart t)) (getPosition t) = true ->
  snd (jumpToStart t) = t.
Proof.
  destruct t as [[m i] mn hy fk].
  unfold jumpToStart, getPosition. simpl. destruct m.
  - rewrite jumpToStart_loop_on_main. unfold positionsEqual. simpl.
    intros H. destruct i; [reflexivity | discriminate].
  - destruct mn as [|s mn].
    + rewrite jumpToStart_loop_standalone. unfold positionsEqual. simpl.
      intros H. destruct i; [reflexivity | discriminate].
    + rewrite jumpToStart_loop_forked. unfold positionsEqual. simpl.
      discriminate.
Qed.

Lemma jumpToEnd_same_position (t : BoardTimeline) :
  positionsEqual (fst (jumpToEnd t)) (getPosition t) = true ->
  snd (jumpToEnd t) = t.
Proof.
  unfold jumpToEnd, getPosition. simpl.
  rewrite jumpToEnd_loop_result.
  destruct t as [[m i] mn hy fk]. unfold positionsEqual. simpl.
  rewrite Bool.eqb_reflx. simpl.
  intros H. apply Nat.eqb_eq in H. rewrite H. reflexivity.
Qed.

(** A call of [makeMove] that does not both succeed and move the position
    leaves the timeline as it was. *)
Lemma makeMove_same_position (chess : ChessJs) (a b : SquareIndex)
    (promo : option string) (t t' : BoardTimeline) (res : MoveResult) :
  makeMove chess a b promo t = (Normal res, t') ->
  valid res && negb (positionsEqual (newPosition res) (getPosition t)) = false ->
  t' = t.
Proof.
  unfold makeMove.
  destruct (getBoardState t) as [cur|]; [| discriminate].
  destruct (push chess cur a b promo) as [ns|];
    [| intros H _; inversion H; reflexivity].
  destruct t as [[m i] mn hy fk]. unfold getPosition, positionsEqual. simpl.
  destruct m; intros H; inversion H; subst; simpl.
  - discriminate.
  - replace (i + 1 =? i) with false by (symmetry; apply Nat.eqb_neq; lia).
    discriminate.
Qed.

(** X28.  Through any sequence of calls of [ChessInterface], returning or
    throwing, the four stores show the current board state, the current
    timeline state, the annotations and the metadata of the fields: the
    conditional updates never leave a store stale. *)
Theorem stores_stay_synced (chess : ChessJs) (calls : list ChessInterface.Call) :
  ChessInterface.synced
    (fold_left (fun c call => ChessInterface.perform chess call c) calls
       ChessInterface.new).
Proof.
  assert (Hnav : forall step c,
            (forall t, positionsEqual (fst (step t)) (getPosition t) = true ->
                       snd (step t) = t) ->
            ChessInterface.synced c ->
            ChessInterface.synced (snd (ChessInterface.navigate step c))).
  { intros step c Hstep Hc. unfold ChessInterface.navigate.
    specialize (Hstep (ChessInterface._timeline c)).
    destruct (step (ChessInterface._timeline c)) as [p t']. simpl in *.
    destruct (positionsEqual p (getPosition (ChessInterface._timeline c)));
      simpl.
    - rewrite (Hstep eq_refl). destruct c. exact Hc.
    - reflexivity. }
  assert (H : forall c, ChessInterface.synced c ->
            ChessInterface.synced
              (fold_left (fun c call => ChessInterface.perform chess call c)
                 calls c)).
  { induction calls as [|call calls IH]; intros c Hc; simpl; [exact Hc |].
    apply IH. destruct call; unfold ChessInterface.perform.
    - unfold ChessInterface.makeMove.
      destruct (makeMove chess fromIndex toIndex promo (ChessInterface._timeline c))
        as [[res|e] t'] eqn:E; simpl.
      + destruct (valid res && negb (positionsEqual (newPosition res)
                    (getPosition (ChessInterface._timeline c)))) eqn:Eu.
        * reflexivity.
        * rewrite (makeMove_same_position _ _ _ _ _ _ _ E Eu).
          destruct c. exact Hc.
      + unfold makeMove in E.
        destruct (getBoardState (ChessInterface._timeline c)) as [cur|].
        * destruct (push chess cur fromIndex toIndex promo);
            [destruct (main (_position (ChessInterface._timeline c))) |];
            discriminate.
        * inversion E; subst. destruct c. exact Hc.
    - reflexivity.
    - reflexivity.
    - apply (Hnav previous c); [apply previous_same_position | exact Hc].
    - apply (Hnav next c); [apply next_same_position | exact Hc].
    - apply (Hnav jumpToEnd c); [apply jumpToEnd_same_position | exact Hc].
    - apply (Hnav jumpToStart c); [apply jumpToStart_same_position | exact Hc].
    - unfold ChessInterface.loadPGN, loadPGN.
      destruct (chess_loadPgn chess pgn) as [[history header]|]; simpl.
      + reflexivity.
      + destruct c. exact Hc. }
  apply H. reflexivity.
Qed.

(** X29.  What [jumpToStart] does from any state: with the cursor on
    [main] it goes to index 0 and changes nothing else; with the cursor on
    the hypothetical branch and no main line it goes to the root of the
    branch and keeps the branch; with the cursor on the hypothetical branch
    of an imported game it ends at index 0 of [main] and the branch is
    discarded.  The fork index is never changed. *)
Theorem jumpToStart_result (t : BoardTimeline) :
  jumpToStart t
  = if main (_position t) then
      (mkPosition true 0,
       mkTimeline (mkPosition true 0) (_main t) (_hypothetical t)
         (_hypotheticalForksFrom t))
    else if length (_main t) =? 0 then
      (mkPosition false 0,
       mkTimeline (mkPosition false 0) (_main t) (_hypothetical t)
         (_hypotheticalForksFrom t))
    else
      (mkPosition true 0,
       mkTimeline (mkPosition true 0) (_main t) [] (_hypotheticalForksFrom t)).
Proof.
  destruct t as [[m i] mn hy fk]. unfold jumpToStart, getPosition. simpl.
  destruct m.
  - rewrite jumpToStart_loop_on_main. reflexivity.
  - destruct mn as [|s mn]; simpl.
    + rewrite jumpToStart_loop_standalone. reflexivity.
    + rewrite jumpToStart_loop_forked. reflexivity.
Qed.

(* ===================================================================== *)
(** ** Forced moves on a main line *)
(* ===================================================================== *)



Section ForcedMoves.
Variable chess : ChessJs.
Variable stockfish : Stockfish.
Variable openings : option (gmap string string).


End ForcedMoves.

